(** * Windows CPU affinity resolution of the kubelet container lifecycle

    A shallow embedding of
    [pkg/kubelet/cm/internal_container_lifecycle_windows.go]:
    the converters between a flat set of global CPU indices and the
    (group, 64-bit mask) pairs of the host affinity API, and
    [PreCreateContainer], which reconciles the CPU manager's selection with
    the NUMA nodes chosen by the memory manager.

    Go's [int] is modelled as [Z] (no operation of this file can overflow
    it), the fixed-width unsigned types by their wrap-around on [Z], the
    sets [map[int]struct{}], [cpuset.CPUSet] and [sets.Set[int]] as
    [gset Z], and [map[int]uint64] as [gmap Z Z]. *)

From stdpp Require Import gmap sorting list strings.

Local Open Scope Z_scope.

(** ** Go's machine integers *)

Module Go.

(** Conversion to an unsigned type of [w] bits keeps the low [w] bits. *)
Definition wrap (w x : Z) : Z := x mod 2 ^ w.

Definition uint16 (x : Z) : Z := wrap 16 x.
Definition uint32 (x : Z) : Z := wrap 32 x.
Definition uint64 (x : Z) : Z := wrap 64 x.

(** [x << k] at a 64-bit unsigned type with a signed shift count [k]:
    a negative count is a run-time panic ([None]); bits shifted past bit
    63 are lost. *)
Definition shl64 (x k : Z) : option Z :=
  if decide (k < 0) then None else Some (uint64 (Z.shiftl x k)).

(** [/] and [%] on [int] truncate towards zero. *)
Definition div (x y : Z) : Z := Z.quot x y.
Definition rem (x y : Z) : Z := Z.rem x y.

(** Ascending listing of a set of ints, as [cpuset.CPUSet.List] and
    [sets.List] return it. *)
Definition sorted (s : gset Z) : list Z := merge_sort Z.le (elements s).

End Go.

(** ** Data *)

(** [winstats.GROUP_AFFINITY]: the source converts the group with
    [uint16(group)]; the mask is the 64-bit bit-field of the data model. *)
Record GROUP_AFFINITY : Type := {
  Mask : Z;
  Group : Z;
  Reserved : Z * Z * Z
}.

Global Instance GROUP_AFFINITY_eq_dec : EqDecision GROUP_AFFINITY.
Proof. solve_decision. Defined.

(** [runtimeapi.WindowsCpuGroupAffinity], with [CpuGroup : uint32] and
    [CpuMask : uint64]. *)
Record WindowsCpuGroupAffinity : Type := {
  CpuGroup : Z;
  CpuMask : Z
}.

(** ** Representation converter *)

(** Modelled from the spec: [GROUP_AFFINITY.Processors] of package
    [winstats], whose source is not part of the files at hand. For every
    bit position 0..63 set in the mask it yields [group*64 + bit]; the loop
    of [computeCPUSet] ranges over these processor IDs. *)
Definition Processors (a : GROUP_AFFINITY) : list Z :=
  (λ bit, Group a * 64 + bit) <$>
    filter (λ bit, Z.testbit (Mask a) bit = true) (seqZ 0 64).

(** [computeCPUSet]: every processor of every affinity is inserted into a
    fresh set. *)
Definition computeCPUSet (affinities : list GROUP_AFFINITY) : gset Z :=
  foldl (λ cpuSet affinity,
           foldl (λ cpuSet processorID, {[processorID]} ∪ cpuSet)
                 cpuSet (Processors affinity))
        ∅ affinities.

(** [subset]: the loop over the keys of [set1] returns [false] at the first
    key missing from [set2]. *)
Fixpoint subset_keys (keys : list Z) (set2 : gset Z) : bool :=
  match keys with
  | [] => true
  | k :: keys' => if decide (k ∈ set2) then subset_keys keys' set2 else false
  end.

Definition subset (set1 set2 : gset Z) : bool :=
  subset_keys (elements set1) set2.

(** [mergeSets]: the keys of [set1], then those of [set2], are inserted into
    a fresh set. *)
Definition mergeSets (set1 set2 : gset Z) : gset Z :=
  let mergedSet := foldl (λ merged k, {[k]} ∪ merged) ∅ (elements set1) in
  foldl (λ merged k, {[k]} ∪ merged) mergedSet (elements set2).

(** [convertToGroupAffinities]: one single-bit affinity per CPU, in the
    ascending order of [cpuSet.List()]. [None] is the panic of a negative
    shift count. *)
Fixpoint convert_cpus (cpus : list Z) (affinities : list GROUP_AFFINITY)
  : option (list GROUP_AFFINITY) :=
  match cpus with
  | [] => Some affinities
  | cpu :: cpus' =>
      let group := Go.div cpu 64 in
      let processor := Go.rem cpu 64 in
      match Go.shl64 1 processor with
      | None => None
      | Some mask =>
          let affinity :=
            {| Mask := mask; Group := Go.uint16 group; Reserved := (0, 0, 0) |} in
          convert_cpus cpus' (affinities ++ [affinity])
      end
  end.

Definition convertToGroupAffinities (cpuSet : gset Z)
  : option (list GROUP_AFFINITY) :=
  convert_cpus (Go.sorted cpuSet) [].

(** Reading a [map[int]uint64] at a key: a missing key reads as 0. *)
Definition maskAt (masks : gmap Z Z) (group : Z) : Z :=
  default 0 (masks !! group).

(** [groupMasks]: the bit of every CPU is ORed into the mask of its group.
    [None] is the panic of a negative shift count. *)
Fixpoint group_cpus (cpus : list Z) (masks : gmap Z Z) : option (gmap Z Z) :=
  match cpus with
  | [] => Some masks
  | cpu :: cpus' =>
      let group := Go.div cpu 64 in
      match Go.shl64 1 (Go.rem cpu 64) with
      | None => None
      | Some mask =>
          group_cpus cpus' (<[group := Z.lor (maskAt masks group) mask]> masks)
      end
  end.

Definition groupMasks (cpuSet : gset Z) : option (gmap Z Z) :=
  group_cpus (elements cpuSet) ∅.

(** A group affinity with a zero [Reserved] field, as the tests of the
    package write them. *)
Definition ga (g m : Z) : GROUP_AFFINITY :=
  {| Mask := m; Group := g; Reserved := (0, 0, 0) |}.

(** ** Affinity resolver *)

Record Pod : Type := { UID : string }.
Record Container : Type := { Name : string }.

(** The path [containerConfig.Windows.Resources.AffinityCpus] of
    [runtimeapi.ContainerConfig]; [None] is a nil pointer. *)
Record WindowsContainerResources : Type := {
  AffinityCpus : list WindowsCpuGroupAffinity
}.
Record WindowsContainerConfig : Type := {
  Resources : option WindowsContainerResources
}.
Record ContainerConfig : Type := {
  Windows : option WindowsContainerConfig
}.

(** The two managers of [internalContainerLifecycleImpl]; [None] is a nil
    manager. [GetCPUAffinity] takes the pod UID and the container name,
    [GetMemoryNUMANodes] the pod and the container. *)
Record internalContainerLifecycleImpl : Type := {
  cpuManager : option (string → string → gset Z);
  memoryManager : option (Pod → Container → gset Z)
}.

(** What a computation yields: a value, a returned error, or a run-time
    panic. *)
Inductive outcome (E A : Type) : Type :=
| Ok (a : A)
| Fail (e : E)
| Panic.
Arguments Ok {E A} a.
Arguments Fail {E A} e.
Arguments Panic {E A}.

Section Resolver.

(** Errors of the host query behind [winstats.GetCPUsforNUMANode]. *)
Context {hostError : Type}.

(** The error built by
    [fmt.Errorf("failed to get CPUs for NUMA node %d: %v", numaNode, err)],
    kept as its two arguments. *)
Record lookupError : Type := {
  failedNode : Z;
  cause : hostError
}.

(** [winstats.GetCPUsforNUMANode], the external lookup of the processors
    of a NUMA node. *)
Variable GetCPUsforNUMANode : Z → hostError + GROUP_AFFINITY.

(** The loop gathering the CPUs of the selected NUMA nodes (lines 61-68,
    and again lines 94-101). [issued] records the node numbers passed to
    the lookup, oldest first. *)
Fixpoint gatherNUMANodeCPUs (nodes : list Z)
    (allNumaNodeCPUs : list GROUP_AFFINITY) (issued : list Z)
  : list Z * outcome lookupError (list GROUP_AFFINITY) :=
  match nodes with
  | [] => (issued, Ok allNumaNodeCPUs)
  | numaNode :: nodes' =>
      let issued' := issued ++ [Go.uint16 numaNode] in
      match GetCPUsforNUMANode (Go.uint16 numaNode) with
      | inl err => (issued', Fail {| failedNode := numaNode; cause := err |})
      | inr affinity =>
          gatherNUMANodeCPUs nodes' (allNumaNodeCPUs ++ [affinity]) issued'
      end
  end.

Definition IsEmpty (s : gset Z) : bool := bool_decide (size s = 0%nat).
Definition Len (s : gset Z) : Z := Z.of_nat (size s).
Definition len (s : gset Z) : Z := Z.of_nat (size s).
Definition notNil {A : Type} (p : option A) : bool :=
  match p with Some _ => true | None => false end.

(** Lines 43-46: the CPUs allocated by the CPU manager; the zero value of
    [cpuset.CPUSet] is the empty set. *)
Definition allocatedCPUsOf (i : internalContainerLifecycleImpl)
    (pod : Pod) (container : Container) : gset Z :=
  match cpuManager i with
  | Some m => m (UID pod) (Name container)
  | None => ∅
  end.

(** Lines 48-51: the NUMA nodes selected by the memory manager; the nil set
    has length 0. *)
Definition numaNodesOf (i : internalContainerLifecycleImpl)
    (pod : Pod) (container : Container) : gset Z :=
  match memoryManager i with
  | Some m => m pod container
  | None => ∅
  end.

(** Lines 43-103 of [PreCreateContainer]: the value of [finalCPUSet]
    ([None] is the nil map), with the lookups issued on the way. *)
Definition finalCPUSet (i : internalContainerLifecycleImpl)
    (pod : Pod) (container : Container)
  : list Z * outcome lookupError (option (gset Z)) :=
  let allocatedCPUs := allocatedCPUsOf i pod container in
  let numaNodes := numaNodesOf i pod container in
  if notNil (cpuManager i) && negb (IsEmpty allocatedCPUs)
     && notNil (memoryManager i) && (Len numaNodes >? 0)
  then
    match gatherNUMANodeCPUs (Go.sorted numaNodes) [] [] with
    | (issued, Fail e) => (issued, Fail e)
    | (issued, Panic) => (issued, Panic)
    | (issued, Ok allNumaNodeCPUs) =>
        match convertToGroupAffinities allocatedCPUs with
        | None => (issued, Panic)
        | Some affinities =>
            let cpuManagerAffinityCPUSet := computeCPUSet affinities in
            let numaNodeAffinityCPUSet := computeCPUSet allNumaNodeCPUs in
            if len cpuManagerAffinityCPUSet >? len numaNodeAffinityCPUSet
            then (issued, Ok (Some cpuManagerAffinityCPUSet))
            else if subset cpuManagerAffinityCPUSet numaNodeAffinityCPUSet
            then (issued, Ok (Some cpuManagerAffinityCPUSet))
            else (issued, Ok (Some (mergeSets cpuManagerAffinityCPUSet
                                              numaNodeAffinityCPUSet)))
        end
    end
  else if notNil (cpuManager i) && negb (IsEmpty allocatedCPUs)
  then
    match convertToGroupAffinities allocatedCPUs with
    | None => ([], Panic)
    | Some affinities => ([], Ok (Some (computeCPUSet affinities)))
    end
  else if notNil (memoryManager i) && negb (IsEmpty allocatedCPUs)
  then
    match gatherNUMANodeCPUs (Go.sorted numaNodes) [] [] with
    | (issued, Fail e) => (issued, Fail e)
    | (issued, Panic) => (issued, Panic)
    | (issued, Ok allNumaNodeCPUs) =>
        (issued, Ok (Some (computeCPUSet allNumaNodeCPUs)))
    end
  else ([], Ok None).

(** The assignment [containerConfig.Windows.Resources.AffinityCpus = l];
    [None] is the panic of a nil pointer on the path. *)
Definition setAffinityCpus (containerConfig : ContainerConfig)
    (l : list WindowsCpuGroupAffinity) : option ContainerConfig :=
  match Windows containerConfig with
  | None => None
  | Some w =>
      match Resources w with
      | None => None
      | Some _ =>
          Some {| Windows := Some {| Resources := Some {| AffinityCpus := l |} |} |}
      end
  end.

(** Lines 106-115: the masks of [groupMasks] turned into the entries of
    the container configuration. Go ranges over the map in an unspecified
    order; the order of [map_to_list] stands for it. *)
Definition cpusToGroupAffinities (masks : gmap Z Z)
  : list WindowsCpuGroupAffinity :=
  (λ gm, {| CpuGroup := Go.uint32 gm.1; CpuMask := Go.uint64 gm.2 |})
    <$> map_to_list masks.

(** A run of [PreCreateContainer]: the lookups it issued, the container
    configuration it leaves behind, and what it returned ([Ok ()] is the
    nil error). *)
Record run : Type := {
  lookups : list Z;
  config : ContainerConfig;
  returned : outcome lookupError ()
}.

(** [PreCreateContainer], with the feature gate
    [WindowsCPUAndMemoryAffinity] as a flag. *)
Definition PreCreateContainer (gate : bool)
    (i : internalContainerLifecycleImpl) (pod : Pod) (container : Container)
    (containerConfig : ContainerConfig) : run :=
  if negb gate then
    {| lookups := []; config := containerConfig; returned := Ok () |}
  else
    match finalCPUSet i pod container with
    | (issued, Fail e) =>
        {| lookups := issued; config := containerConfig; returned := Fail e |}
    | (issued, Panic) =>
        {| lookups := issued; config := containerConfig; returned := Panic |}
    | (issued, Ok None) =>
        {| lookups := issued; config := containerConfig; returned := Ok () |}
    | (issued, Ok (Some final)) =>
        match groupMasks final with
        | None =>
            {| lookups := issued; config := containerConfig; returned := Panic |}
        | Some masks =>
            match setAffinityCpus containerConfig (cpusToGroupAffinities masks) with
            | None =>
                {| lookups := issued; config := containerConfig; returned := Panic |}
            | Some containerConfig' =>
                {| lookups := issued; config := containerConfig'; returned := Ok () |}
            end
        end
    end.

End Resolver.

Arguments lookupError hostError : clear implicits.
Arguments run hostError : clear implicits.

(** ** Views used by the statements *)

(** The masks of [groupMasks] read as group affinities, one per group. *)
Definition affinitiesOfMasks (masks : gmap Z Z) : list GROUP_AFFINITY :=
  (λ gm, ga (Go.uint16 gm.1) gm.2) <$> map_to_list masks.

(** The group-to-mask mapping of a list of affinities, entries with a zero
    mask left out. *)
Definition maskMapOf (affinities : list GROUP_AFFINITY) : gmap Z Z :=
  list_to_map ((λ a, (Group a, Mask a)) <$> filter (λ a, Mask a ≠ 0) affinities).

(** The single-bit affinity [convertToGroupAffinities] emits for one CPU. *)
Definition singleBit (cpu : Z) : GROUP_AFFINITY :=
  ga (Go.uint16 (cpu / 64)) (Z.shiftl 1 (cpu mod 64)).

(** The largest number of CPUs a 16-bit group index can address. *)
Definition maxCPUs : Z := 64 * 2 ^ 16.

(** ** Sample inputs *)

Definition samplePod : Pod := {| UID := "5f0c" |}.
Definition sampleContainer : Container := {| Name := "app" |}.

(** A container configuration whose affinity already holds one entry. *)
Definition sampleConfig : ContainerConfig :=
  {| Windows := Some {| Resources := Some
       {| AffinityCpus := [ {| CpuGroup := 0; CpuMask := 3 |} ] |} |} |}.

(** A host with two NUMA nodes: node 0 holds the 64 processors of group 0,
    node 1 the first four processors of group 1; other nodes do not
    exist. *)
Definition sampleLookup (numaNode : Z) : string + GROUP_AFFINITY :=
  if decide (numaNode = 0) then inr (ga 0 (2 ^ 64 - 1))
  else if decide (numaNode = 1) then inr (ga 1 15)
  else inl "no such node".

(** Both managers present, selecting [cpus] and [nodes]. *)
Definition bothManagers (cpus nodes : gset Z) : internalContainerLifecycleImpl :=
  {| cpuManager := Some (λ _ _, cpus); memoryManager := Some (λ _ _, nodes) |}.

(** Only the memory manager present, selecting [nodes]. *)
Definition memoryManagerOnly (nodes : gset Z) : internalContainerLifecycleImpl :=
  {| cpuManager := None; memoryManager := Some (λ _ _, nodes) |}.

(** * Properties *)

(** ** Machine integers *)

Lemma div_nonneg (c : Z) : 0 ≤ c → Go.div c 64 = c / 64.
Proof. intros Hc. unfold Go.div. by rewrite Z.quot_div_nonneg by lia. Qed.

Lemma rem_nonneg (c : Z) : 0 ≤ c → Go.rem c 64 = c mod 64.
Proof. intros Hc. unfold Go.rem. by rewrite Z.rem_mod_nonneg by lia. Qed.

Lemma shl64_bit (k : Z) :
  0 ≤ k < 64 → Go.shl64 1 k = Some (Z.shiftl 1 k).
Proof.
  intros Hk. unfold Go.shl64, Go.uint64, Go.wrap.
  destruct (decide (k < 0)) as [?|_]; [lia|].
  f_equal. rewrite Z.shiftl_1_l. apply Z.mod_small.
  split; [apply Z.pow_nonneg; lia | apply Z.pow_lt_mono_r; lia].
Qed.

Lemma shl64_cpu (c : Z) :
  0 ≤ c → Go.shl64 1 (Go.rem c 64) = Some (Z.shiftl 1 (c mod 64)).
Proof.
  intros Hc. rewrite rem_nonneg by done. apply shl64_bit.
  apply Z.mod_pos_bound. lia.
Qed.

Lemma uint16_small (g : Z) : 0 ≤ g < 2 ^ 16 → Go.uint16 g = g.
Proof. intros Hg. unfold Go.uint16, Go.wrap. by apply Z.mod_small. Qed.

Lemma testbit_single (k b : Z) :
  0 ≤ k → Z.testbit (Z.shiftl 1 k) b = true ↔ b = k.
Proof.
  intros Hk. rewrite Z.shiftl_1_l, Z.pow2_bits_eqb by done.
  rewrite Z.eqb_eq. naive_solver.
Qed.

(** A CPU index splits in one way only into a group and a bit below 64. *)
Lemma group_bit_unique (c g b : Z) :
  0 ≤ b < 64 → g * 64 + b = c → g = c / 64 ∧ b = c mod 64.
Proof.
  intros Hb <-. split.
  - apply Z.div_unique with b; lia.
  - apply Z.mod_unique with g; lia.
Qed.

(** ** Sorted listings *)

Lemma elem_of_sorted (s : gset Z) (x : Z) : x ∈ Go.sorted s ↔ x ∈ s.
Proof.
  unfold Go.sorted. rewrite merge_sort_Permutation. apply elem_of_elements.
Qed.

Lemma sorted_empty : Go.sorted ∅ = [].
Proof.
  unfold Go.sorted. rewrite elements_empty. reflexivity.
Qed.

Lemma sorted_singleton (c : Z) : Go.sorted {[c]} = [c].
Proof.
  unfold Go.sorted. rewrite elements_singleton. reflexivity.
Qed.

Lemma sorted_nil_inv (s : gset Z) : Go.sorted s = [] → s = ∅.
Proof.
  intros Hs. apply set_eq. intros x. rewrite <- elem_of_sorted, Hs.
  set_solver.
Qed.

Lemma length_sorted (s : gset Z) : length (Go.sorted s) = size s.
Proof. unfold Go.sorted. by rewrite merge_sort_Permutation. Qed.

(** ** Flat sets *)

Lemma elem_of_insert_keys (keys : list Z) (acc : gset Z) (x : Z) :
  x ∈ foldl (λ merged k, {[k]} ∪ merged) acc keys ↔ x ∈ acc ∨ x ∈ keys.
Proof.
  revert acc. induction keys as [|k keys IH]; intros acc; simpl.
  - set_solver.
  - rewrite IH. set_solver.
Qed.

Lemma mergeSets_union (set1 set2 : gset Z) : mergeSets set1 set2 = set1 ∪ set2.
Proof.
  apply set_eq. intros x. unfold mergeSets.
  rewrite !elem_of_insert_keys, !elem_of_elements. set_solver.
Qed.

Lemma subset_keys_spec (keys : list Z) (set2 : gset Z) :
  subset_keys keys set2 = true ↔ ∀ k, k ∈ keys → k ∈ set2.
Proof.
  induction keys as [|k keys IH]; simpl.
  - set_solver.
  - destruct (decide (k ∈ set2)) as [Hin|Hout].
    + rewrite IH. set_solver.
    + split; [done|]. intros H. destruct Hout. apply H. set_solver.
Qed.

Lemma subset_spec (set1 set2 : gset Z) :
  subset set1 set2 = true ↔ set1 ⊆ set2.
Proof.
  unfold subset. rewrite subset_keys_spec.
  setoid_rewrite elem_of_elements. set_solver.
Qed.

Lemma elem_of_Processors (a : GROUP_AFFINITY) (x : Z) :
  x ∈ Processors a ↔
  ∃ bit, 0 ≤ bit < 64 ∧ Z.testbit (Mask a) bit = true ∧ x = Group a * 64 + bit.
Proof.
  unfold Processors. rewrite list_elem_of_fmap.
  setoid_rewrite list_elem_of_filter. setoid_rewrite elem_of_seqZ.
  naive_solver lia.
Qed.

Lemma elem_of_flatten (affinities : list GROUP_AFFINITY) (acc : gset Z) (x : Z) :
  x ∈ foldl (λ cpuSet affinity,
               foldl (λ cpuSet processorID, {[processorID]} ∪ cpuSet)
                     cpuSet (Processors affinity))
            acc affinities
  ↔ x ∈ acc ∨ ∃ a, a ∈ affinities ∧ x ∈ Processors a.
Proof.
  revert acc. induction affinities as [|a affinities IH]; intros acc; simpl.
  - set_solver.
  - rewrite IH, elem_of_insert_keys. set_solver.
Qed.

Lemma elem_of_computeCPUSet (affinities : list GROUP_AFFINITY) (x : Z) :
  x ∈ computeCPUSet affinities ↔ ∃ a, a ∈ affinities ∧ x ∈ Processors a.
Proof. unfold computeCPUSet. rewrite elem_of_flatten. set_solver. Qed.

(** ** Masks *)

Lemma bits_above_63 (v n : Z) : 0 ≤ v < 2 ^ 64 → 64 ≤ n → Z.testbit v n = false.
Proof.
  intros Hv Hn. apply Z.bits_above_log2; [lia|].
  destruct (decide (v = 0)) as [->|Hnz]; [simpl; lia|].
  assert (Z.log2 v < 64); [|lia]. apply Z.log2_lt_pow2; lia.
Qed.

Lemma nonzero_bit (v : Z) :
  0 ≤ v < 2 ^ 64 → v ≠ 0 → ∃ b, 0 ≤ b < 64 ∧ Z.testbit v b = true.
Proof.
  intros Hv Hnz. exists (Z.log2 v). split.
  - split; [apply Z.log2_nonneg | apply Z.log2_lt_pow2; lia].
  - apply Z.bit_log2. lia.
Qed.

Lemma bits_below_64 (v : Z) :
  (∀ b, 0 ≤ b → Z.testbit v b = true → b < 64) → 0 ≤ v < 2 ^ 64.
Proof.
  intros Hbits. assert (v = v mod 2 ^ 64) as ->.
  { apply Z.bits_inj'. intros b Hb.
    destruct (decide (b < 64)) as [Hlt|Hge].
    - by rewrite Z.mod_pow2_bits_low.
    - rewrite Z.mod_pow2_bits_high by lia.
      destruct (Z.testbit v b) eqn:E; [|done]. apply Hbits in E; lia. }
  apply Z.mod_pos_bound. lia.
Qed.

Lemma bool_eq_iff (x y : bool) : (x = true ↔ y = true) → x = y.
Proof. destruct x, y; naive_solver. Qed.

(** ** Converter *)

Lemma convert_cpus_nonneg (cpus : list Z) (affinities : list GROUP_AFFINITY) :
  Forall (λ c, 0 ≤ c) cpus →
  convert_cpus cpus affinities = Some (affinities ++ (singleBit <$> cpus)).
Proof.
  revert affinities. induction cpus as [|c cpus IH]; intros affinities Hc.
  - simpl. by rewrite app_nil_r.
  - apply Forall_cons in Hc as [Hc Hcs].
    cbn [convert_cpus]. rewrite shl64_cpu, div_nonneg by done.
    rewrite IH by done. rewrite <- app_assoc. reflexivity.
Qed.

Lemma convertToGroupAffinities_nonneg (cpuSet : gset Z) :
  (∀ c, c ∈ cpuSet → 0 ≤ c) →
  convertToGroupAffinities cpuSet = Some (singleBit <$> Go.sorted cpuSet).
Proof.
  intros Hc. unfold convertToGroupAffinities.
  rewrite convert_cpus_nonneg; [done|].
  apply Forall_forall. intros c Hin. apply Hc. by apply elem_of_sorted.
Qed.

Lemma elem_of_Processors_bit (g k x : Z) (r : Z * Z * Z) :
  0 ≤ k < 64 →
  x ∈ Processors {| Mask := Z.shiftl 1 k; Group := g; Reserved := r |}
  ↔ x = g * 64 + k.
Proof.
  intros Hk. rewrite elem_of_Processors. simpl. split.
  - intros (b & Hb & Hbit & ->). apply testbit_single in Hbit; [|lia].
    by subst b.
  - intros ->. exists k. split; [done|]. split; [|done].
    apply testbit_single; [lia|done].
Qed.

Lemma elem_of_Processors_singleBit (c x : Z) :
  0 ≤ c < maxCPUs → x ∈ Processors (singleBit c) ↔ x = c.
Proof.
  intros Hc. unfold singleBit, ga.
  rewrite elem_of_Processors_bit by (apply Z.mod_pos_bound; lia).
  unfold maxCPUs in Hc. rewrite uint16_small.
  - pose proof (Z.div_mod c 64). lia.
  - split; [apply Z.div_pos; lia | apply Z.div_lt_upper_bound; lia].
Qed.

Lemma flatten_singleBits (cpuSet : gset Z) :
  (∀ c, c ∈ cpuSet → 0 ≤ c < maxCPUs) →
  computeCPUSet (singleBit <$> Go.sorted cpuSet) = cpuSet.
Proof.
  intros Hc. apply set_eq. intros x.
  rewrite elem_of_computeCPUSet. split.
  - intros (a & Ha & Hx). apply list_elem_of_fmap in Ha as (c & -> & Hin).
    apply elem_of_sorted in Hin.
    apply elem_of_Processors_singleBit in Hx; [by subst x | by apply Hc].
  - intros Hx. exists (singleBit x). split.
    + apply list_elem_of_fmap. exists x. split; [done|]. by apply elem_of_sorted.
    + apply elem_of_Processors_singleBit; [by apply Hc | done].
Qed.

Lemma maskAt_insert_bit (masks : gmap Z Z) (c g b : Z) :
  0 ≤ c → 0 ≤ b →
  Z.testbit
    (maskAt (<[c / 64 := Z.lor (maskAt masks (c / 64)) (Z.shiftl 1 (c mod 64))]> masks) g)
    b = true
  ↔ Z.testbit (maskAt masks g) b = true ∨ (b < 64 ∧ g * 64 + b = c).
Proof.
  intros Hc Hb. pose proof (Z.mod_pos_bound c 64 ltac:(lia)) as Hm.
  pose proof (Z.div_mod c 64 ltac:(lia)) as Hdm.
  unfold maskAt at 1. destruct (decide (c / 64 = g)) as [<-|Hne].
  - rewrite lookup_insert_eq. simpl.
    rewrite Z.lor_spec, orb_true_iff, testbit_single by lia.
    split; (intros [?|?]; [by left|right]); [lia|].
    destruct H as [Hlt Heq]. apply group_bit_unique in Heq; [tauto|lia].
  - rewrite lookup_insert_ne by done. fold (maskAt masks g).
    split; [by left|]. intros [?|[Hlt Heq]]; [done|].
    apply group_bit_unique in Heq; [|lia]. destruct Hne. symmetry. apply Heq.
Qed.

Lemma group_cpus_spec (cpus : list Z) (masks : gmap Z Z) :
  Forall (λ c, 0 ≤ c) cpus →
  ∃ masks', group_cpus cpus masks = Some masks' ∧
    (∀ g, is_Some (masks' !! g) ↔
          is_Some (masks !! g) ∨ ∃ c, c ∈ cpus ∧ c / 64 = g) ∧
    (∀ g b, 0 ≤ b →
       Z.testbit (maskAt masks' g) b = true ↔
       Z.testbit (maskAt masks g) b = true ∨ (b < 64 ∧ g * 64 + b ∈ cpus)).
Proof.
  revert masks. induction cpus as [|c cpus IH]; intros masks Hc.
  - exists masks. split; [done|]. split.
    + intros g. set_solver.
    + intros g b Hb. set_solver.
  - apply Forall_cons in Hc as [Hc Hcs].
    cbn [group_cpus]. rewrite shl64_cpu, div_nonneg by done.
    destruct (IH (<[c / 64 := Z.lor (maskAt masks (c / 64)) (Z.shiftl 1 (c mod 64))]> masks) Hcs)
      as (masks' & Heq & Hdom & Hbits).
    exists masks'. split; [done|]. split.
    + intros g. rewrite Hdom, lookup_insert_is_Some.
      split.
      * intros [[?|[? ?]]|(c' & Hin & Hg)].
        -- right. exists c. split; [left|done].
        -- by left.
        -- right. exists c'. split; [by right|done].
      * intros [?|(c' & Hin & Hg)].
        -- destruct (decide (c / 64 = g)); [left; by left | left; right; done].
        -- apply elem_of_cons in Hin as [->|Hin]; [left; by left|].
           right. by exists c'.
    + intros g b Hb. rewrite Hbits, maskAt_insert_bit by done.
      rewrite elem_of_cons. naive_solver.
Qed.

Lemma groupMasks_spec (cpuSet : gset Z) :
  (∀ c, c ∈ cpuSet → 0 ≤ c) →
  ∃ masks, groupMasks cpuSet = Some masks ∧
    (∀ g, is_Some (masks !! g) ↔ ∃ c, c ∈ cpuSet ∧ c / 64 = g) ∧
    (∀ g b, 0 ≤ b →
       Z.testbit (maskAt masks g) b = true ↔ b < 64 ∧ g * 64 + b ∈ cpuSet).
Proof.
  intros Hc. unfold groupMasks.
  destruct (group_cpus_spec (elements cpuSet) ∅) as (masks & Heq & Hdom & Hbits).
  { apply Forall_forall. intros c Hin. apply Hc. by apply elem_of_elements. }
  exists masks. split; [done|]. split.
  - intros g. rewrite Hdom, lookup_empty, is_Some_alt.
    setoid_rewrite elem_of_elements. naive_solver.
  - intros g b Hb. rewrite Hbits by done. unfold maskAt at 1.
    rewrite lookup_empty. simpl. rewrite Z.bits_0, elem_of_elements.
    naive_solver.
Qed.

Lemma groupMasks_range (cpuSet : gset Z) (masks : gmap Z Z) (g mask : Z) :
  (∀ c, c ∈ cpuSet → 0 ≤ c) →
  groupMasks cpuSet = Some masks → masks !! g = Some mask →
  0 < mask < 2 ^ 64.
Proof.
  intros Hc Hm Hg.
  destruct (groupMasks_spec cpuSet Hc) as (masks' & Heq & Hdom & Hbits).
  rewrite Hm in Heq. injection Heq as <-.
  assert (maskAt masks g = mask) as Hat by (unfold maskAt; by rewrite Hg).
  assert (0 ≤ mask < 2 ^ 64) as Hrange.
  { apply bits_below_64. intros b Hb Hbit. rewrite <- Hat in Hbit.
    apply Hbits in Hbit; [tauto|done]. }
  split; [|lia].
  destruct (proj1 (Hdom g)) as (c & Hin & Hcg); [by eexists|].
  assert (Z.testbit mask (c mod 64) = true) as Hbit.
  { rewrite <- Hat. pose proof (Z.mod_pos_bound c 64 ltac:(lia)).
    apply Hbits; [lia|]. split; [lia|].
    pose proof (Z.div_mod c 64 ltac:(lia)).
    replace (g * 64 + c mod 64) with c by lia. done. }
  destruct (decide (mask = 0)) as [->|?]; [|lia].
  by rewrite Z.bits_0 in Hbit.
Qed.

(** Flattening the masks of [groupMasks] gives the set back, for CPUs a
    16-bit group can address. *)
Lemma flatten_groupMasks (cpuSet : gset Z) (masks : gmap Z Z) :
  (∀ c, c ∈ cpuSet → 0 ≤ c < maxCPUs) →
  groupMasks cpuSet = Some masks →
  computeCPUSet (affinitiesOfMasks masks) = cpuSet.
Proof.
  intros Hc Hm.
  destruct (groupMasks_spec cpuSet) as (masks' & Heq & Hdom & Hbits).
  { intros c Hin. apply Hc in Hin. lia. }
  rewrite Hm in Heq. injection Heq as <-.
  apply set_eq. intros x. rewrite elem_of_computeCPUSet. split.
  - intros (a & Ha & Hx). unfold affinitiesOfMasks in Ha.
    apply list_elem_of_fmap in Ha as ([g mask] & -> & Hin).
    apply elem_of_map_to_list in Hin.
    apply elem_of_Processors in Hx as (b & Hb & Hbit & ->). simpl in *.
    destruct (proj1 (Hdom g)) as (c & Hcin & Hcg); [by eexists|].
    apply Hc in Hcin. unfold maxCPUs in Hcin.
    rewrite uint16_small.
    + apply (Hbits g b); [lia|]. unfold maskAt. by rewrite Hin.
    + subst g. split; [apply Z.div_pos; lia | apply Z.div_lt_upper_bound; lia].
  - intros Hx. pose proof (Hc x Hx) as Hrange. unfold maxCPUs in Hrange.
    pose proof (Z.mod_pos_bound x 64 ltac:(lia)) as Hmod.
    pose proof (Z.div_mod x 64 ltac:(lia)) as Hdm.
    destruct (proj2 (Hdom (x / 64))) as [mask Hmask]; [by exists x|].
    exists (ga (Go.uint16 (x / 64)) mask). split.
    + unfold affinitiesOfMasks. apply list_elem_of_fmap.
      exists (x / 64, mask). split; [done|]. by apply elem_of_map_to_list.
    + apply elem_of_Processors. exists (x mod 64). simpl.
      split; [done|]. split.
      * replace mask with (maskAt masks (x / 64))
          by (unfold maskAt; by rewrite Hmask).
        apply Hbits; [lia|]. split; [lia|].
        replace (x / 64 * 64 + x mod 64) with x by lia. done.
      * rewrite uint16_small; [lia|].
        split; [apply Z.div_pos; lia | apply Z.div_lt_upper_bound; lia].
Qed.

Lemma NoDup_fmap_eq {A B : Type} (f : A → B) (l : list A) (x y : A) :
  NoDup (f <$> l) → x ∈ l → y ∈ l → f x = f y → x = y.
Proof.
  induction l as [|z l IH]; intros Hnd Hx Hy Hf; [by apply elem_of_nil in Hx|].
  rewrite fmap_cons in Hnd. apply NoDup_cons in Hnd as [Hz Hnd].
  apply elem_of_cons in Hx as [->|Hx]; apply elem_of_cons in Hy as [->|Hy].
  - done.
  - destruct Hz. rewrite Hf. apply list_elem_of_fmap. by exists y.
  - destruct Hz. rewrite <- Hf. apply list_elem_of_fmap. by exists x.
  - by apply IH.
Qed.

(** Well-typed affinities: a 16-bit group and a 64-bit mask. *)
Lemma computeCPUSet_nonneg (affinities : list GROUP_AFFINITY) (c : Z) :
  Forall (λ a, 0 ≤ Group a) affinities → c ∈ computeCPUSet affinities → 0 ≤ c.
Proof.
  intros Hwf Hc. apply elem_of_computeCPUSet in Hc as (a & Ha & Hc).
  apply elem_of_Processors in Hc as (b & Hb & _ & ->).
  eapply Forall_forall in Hwf; [|done]. simpl in Hwf. lia.
Qed.

(** Group-encoding the flattening of affinities with distinct groups gives
    their masks back. *)
Lemma groupMasks_flatten (affinities : list GROUP_AFFINITY) :
  Forall (λ a, 0 ≤ Group a ∧ 0 ≤ Mask a < 2 ^ 64) affinities →
  NoDup (Group <$> affinities) →
  groupMasks (computeCPUSet affinities) = Some (maskMapOf affinities).
Proof.
  intros Hwf Hnd.
  destruct (groupMasks_spec (computeCPUSet affinities))
    as (masks & Heq & Hdom & Hbits).
  { intros c. apply computeCPUSet_nonneg.
    eapply Forall_impl; [done|]. naive_solver. }
  rewrite Heq. f_equal.
  assert (∀ a, a ∈ affinities → Mask a ≠ 0 → masks !! Group a = Some (Mask a))
    as Hfwd.
  { intros a Ha Hnz.
    pose proof (proj1 (Forall_forall _ _) Hwf a Ha) as [Hg Hm].
    destruct (nonzero_bit (Mask a) Hm Hnz) as (b0 & Hb0 & Hbit0).
    destruct (proj2 (Hdom (Group a))) as [mask Hmask].
    { exists (Group a * 64 + b0). split.
      - apply elem_of_computeCPUSet. exists a. split; [done|].
        apply elem_of_Processors. by exists b0.
      - symmetry. eapply group_bit_unique; [|done]. done. }
    rewrite Hmask. f_equal. apply Z.bits_inj'. intros b Hb.
    apply bool_eq_iff.
    replace mask with (maskAt masks (Group a))
      by (unfold maskAt; by rewrite Hmask).
    rewrite Hbits by done. rewrite elem_of_computeCPUSet. split.
    - intros (Hlt & a' & Ha' & Hx).
      apply elem_of_Processors in Hx as (b' & Hb' & Hbit' & Hsum).
      symmetry in Hsum. apply group_bit_unique in Hsum as [Hg' Hbb]; [|done].
      assert (Group a' = Group a) as Hsame.
      { rewrite Hg'. symmetry.
        eapply group_bit_unique; [|reflexivity]. lia. }
      assert (b' = b) as ->.
      { rewrite Hbb. symmetry.
        eapply (group_bit_unique _ (Group a)); [|reflexivity]. lia. }
      assert (a' = a) as -> by (by eapply (NoDup_fmap_eq Group)).
      done.
    - intros Hbit. assert (b < 64) as Hlt.
      { destruct (decide (b < 64)); [done|].
        rewrite bits_above_63 in Hbit by (done || lia). done. }
      split; [done|]. exists a. split; [done|].
      apply elem_of_Processors. exists b. split; [lia|]. by split. }
  apply map_eq. intros g. apply option_eq. intros mask.
  unfold maskMapOf. rewrite <- elem_of_list_to_map.
  - rewrite list_elem_of_fmap. setoid_rewrite list_elem_of_filter. split.
    + intros Hmask. destruct (proj1 (Hdom g)) as (c & Hc & Hcg); [by eexists|].
      apply elem_of_computeCPUSet in Hc as (a & Ha & Hc).
      apply elem_of_Processors in Hc as (b & Hb & Hbit & Hsum).
      symmetry in Hsum. apply group_bit_unique in Hsum as [Hg' Hbb]; [|done].
      assert (Mask a ≠ 0) as Hnz.
      { intros Hz. rewrite Hz, Z.bits_0 in Hbit. done. }
      exists a. split; [|by split].
      pose proof (Hfwd a Ha Hnz) as Hma.
      rewrite Hg', Hcg, Hmask in Hma. injection Hma as ->. f_equal. congruence.
    + intros (a & Heqa & Hnz & Ha). injection Heqa as -> ->. by apply Hfwd.
  - rewrite <- list_fmap_compose.
    assert (NoDup (Group <$> filter (λ a, Mask a ≠ 0) affinities)) as Hnd'.
    { eapply sublist_NoDup; [done|]. apply fmap_sublist, sublist_filter. }
    exact Hnd'.
Qed.

(** ** Resolver *)

Lemma size_zero_iff (s : gset Z) : size s = 0%nat ↔ s = ∅.
Proof. rewrite size_empty_iff. apply leibniz_equiv_iff. Qed.

Lemma IsEmpty_true (s : gset Z) : IsEmpty s = true ↔ s = ∅.
Proof.
  unfold IsEmpty. rewrite bool_decide_eq_true. apply size_zero_iff.
Qed.

Lemma IsEmpty_false (s : gset Z) : IsEmpty s = false ↔ s ≠ ∅.
Proof.
  rewrite <- IsEmpty_true. destruct (IsEmpty s); naive_solver.
Qed.

Lemma Len_pos (s : gset Z) : (Len s >? 0) = true ↔ s ≠ ∅.
Proof.
  unfold Len. rewrite Z.gtb_ltb, Z.ltb_lt, <- size_zero_iff. lia.
Qed.

Lemma Len_zero (s : gset Z) : (Len s >? 0) = false ↔ s = ∅.
Proof.
  unfold Len. rewrite Z.gtb_ltb, Z.ltb_ge, <- size_zero_iff. lia.
Qed.

Lemma len_gtb (s t : gset Z) : (len s >? len t) = true ↔ (size t < size s)%nat.
Proof. unfold len. rewrite Z.gtb_ltb, Z.ltb_lt. lia. Qed.

Lemma len_not_gtb (s t : gset Z) :
  (len s >? len t) = false ↔ (size s ≤ size t)%nat.
Proof. unfold len. rewrite Z.gtb_ltb, Z.ltb_ge. lia. Qed.

Lemma allocatedCPUs_nil (i : internalContainerLifecycleImpl)
    (pod : Pod) (container : Container) :
  cpuManager i = None → allocatedCPUsOf i pod container = ∅.
Proof. intros H. unfold allocatedCPUsOf. by rewrite H. Qed.

Lemma numaNodes_nil (i : internalContainerLifecycleImpl)
    (pod : Pod) (container : Container) :
  memoryManager i = None → numaNodesOf i pod container = ∅.
Proof. intros H. unfold numaNodesOf. by rewrite H. Qed.

Lemma cpu_guard (i : internalContainerLifecycleImpl)
    (pod : Pod) (container : Container) :
  notNil (cpuManager i) && negb (IsEmpty (allocatedCPUsOf i pod container)) = true
  ↔ allocatedCPUsOf i pod container ≠ ∅.
Proof.
  rewrite andb_true_iff, negb_true_iff, IsEmpty_false. split; [tauto|].
  intros Hne. split; [|done].
  destruct (cpuManager i) eqn:E; [done|].
  destruct Hne. by apply allocatedCPUs_nil.
Qed.

Lemma memory_guard (i : internalContainerLifecycleImpl)
    (pod : Pod) (container : Container) :
  notNil (memoryManager i) && (Len (numaNodesOf i pod container) >? 0) = true
  ↔ numaNodesOf i pod container ≠ ∅.
Proof.
  rewrite andb_true_iff, Len_pos. split; [tauto|].
  intros Hne. split; [|done].
  destruct (memoryManager i) eqn:E; [done|].
  destruct Hne. by apply numaNodes_nil.
Qed.

Lemma convert_empty_inv (cpuSet : gset Z) (affinities : list GROUP_AFFINITY) :
  convertToGroupAffinities cpuSet = Some affinities →
  computeCPUSet affinities ≠ ∅ → cpuSet ≠ ∅.
Proof.
  intros Hconv Hne ->. unfold convertToGroupAffinities in Hconv.
  rewrite sorted_empty in Hconv. simpl in Hconv. injection Hconv as <-.
  by destruct Hne.
Qed.

Section ResolverProperties.

Context {hostError : Type}.
Variable GetCPUsforNUMANode : Z → hostError + GROUP_AFFINITY.

(** The loop issues one lookup per node, in order, while lookups succeed,
    and stops at the first failing one. *)
Lemma gather_fail (pre post : list Z) (n : Z) (e : hostError)
    (acc : list GROUP_AFFINITY) (issued : list Z) :
  (∀ m, m ∈ pre → ∃ a, GetCPUsforNUMANode (Go.uint16 m) = inr a) →
  GetCPUsforNUMANode (Go.uint16 n) = inl e →
  gatherNUMANodeCPUs GetCPUsforNUMANode (pre ++ n :: post) acc issued
  = (issued ++ (Go.uint16 <$> pre ++ [n]),
     Fail {| failedNode := n; cause := e |}).
Proof.
  revert acc issued. induction pre as [|m pre IH]; intros acc issued Hpre Hn.
  - simpl. by rewrite Hn.
  - destruct (Hpre m) as [a Ha]; [by left|].
    cbn [app gatherNUMANodeCPUs]. rewrite Ha.
    rewrite IH; [|intros m' Hm'; apply Hpre; by right|done].
    rewrite fmap_cons, <- app_assoc. reflexivity.
Qed.

Lemma gather_ok (nodes : list Z) (acc affinities : list GROUP_AFFINITY)
    (issued issued' : list Z) :
  gatherNUMANodeCPUs GetCPUsforNUMANode nodes acc issued = (issued', Ok affinities) →
  issued' = issued ++ (Go.uint16 <$> nodes)
  ∧ ∃ found, affinities = acc ++ found ∧ length found = length nodes.
Proof.
  revert acc issued. induction nodes as [|n nodes IH]; intros acc issued H.
  - simpl in H. injection H as <- <-. rewrite !app_nil_r.
    split; [done|]. exists []. by rewrite app_nil_r.
  - cbn [gatherNUMANodeCPUs] in H.
    destruct (GetCPUsforNUMANode (Go.uint16 n)) as [e|a]; [done|].
    apply IH in H as (-> & found & -> & Hlen).
    rewrite fmap_cons, <- app_assoc. split; [done|].
    exists (a :: found). rewrite <- app_assoc. simpl. by rewrite Hlen.
Qed.

Lemma gather_no_panic (nodes : list Z) (acc : list GROUP_AFFINITY)
    (issued : list Z) :
  (gatherNUMANodeCPUs GetCPUsforNUMANode nodes acc issued).2 ≠ Panic.
Proof.
  revert acc issued. induction nodes as [|n nodes IH]; intros acc issued.
  - done.
  - cbn [gatherNUMANodeCPUs].
    destruct (GetCPUsforNUMANode (Go.uint16 n)) as [e|a]; [done|]. apply IH.
Qed.

Lemma gather_nonempty_inv (numaNodes : gset Z)
    (affinities : list GROUP_AFFINITY) (issued : list Z) :
  gatherNUMANodeCPUs GetCPUsforNUMANode (Go.sorted numaNodes) [] [] = (issued, Ok affinities) →
  computeCPUSet affinities ≠ ∅ → numaNodes ≠ ∅.
Proof.
  intros Hg Hne ->. rewrite sorted_empty in Hg. simpl in Hg.
  injection Hg as <- <-. by destruct Hne.
Qed.

(** The policy of the branch taken when both managers selected something. *)
Lemma finalCPUSet_both (i : internalContainerLifecycleImpl)
    (pod : Pod) (container : Container)
    (affinities allNumaNodeCPUs : list GROUP_AFFINITY) (issued : list Z) :
  allocatedCPUsOf i pod container ≠ ∅ →
  numaNodesOf i pod container ≠ ∅ →
  convertToGroupAffinities (allocatedCPUsOf i pod container) = Some affinities →
  gatherNUMANodeCPUs GetCPUsforNUMANode (Go.sorted (numaNodesOf i pod container)) [] []
    = (issued, Ok allNumaNodeCPUs) →
  finalCPUSet GetCPUsforNUMANode i pod container
  = (issued,
     Ok (Some
       (if len (computeCPUSet affinities) >? len (computeCPUSet allNumaNodeCPUs)
        then computeCPUSet affinities
        else if subset (computeCPUSet affinities) (computeCPUSet allNumaNodeCPUs)
        then computeCPUSet affinities
        else mergeSets (computeCPUSet affinities)
                       (computeCPUSet allNumaNodeCPUs)))).
Proof.
  intros Hcpu Hnuma Hconv Hgather. unfold finalCPUSet.
  rewrite <- andb_assoc. rewrite (proj2 (cpu_guard i pod container) Hcpu).
  rewrite (proj2 (memory_guard i pod container) Hnuma).
  cbn [andb]. rewrite Hgather, Hconv.
  destruct (len _ >? len _); [done|]. by destruct (subset _ _).
Qed.

(** Without a CPU selection every guard fails: nothing is looked up and no
    final set is chosen. *)
Lemma finalCPUSet_no_cpus (i : internalContainerLifecycleImpl)
    (pod : Pod) (container : Container) :
  allocatedCPUsOf i pod container = ∅ →
  finalCPUSet GetCPUsforNUMANode i pod container = ([], Ok None).
Proof.
  intros Hcpu. unfold finalCPUSet.
  rewrite (proj2 (IsEmpty_true _) Hcpu). cbn [negb].
  by rewrite !andb_false_r.
Qed.

Lemma PreCreateContainer_no_cpus (gate : bool)
    (i : internalContainerLifecycleImpl) (pod : Pod) (container : Container)
    (containerConfig : ContainerConfig) :
  allocatedCPUsOf i pod container = ∅ →
  PreCreateContainer GetCPUsforNUMANode gate i pod container containerConfig
  = {| lookups := []; config := containerConfig; returned := Ok () |}.
Proof.
  intros Hcpu. unfold PreCreateContainer. destruct gate; [|done].
  cbn [negb]. by rewrite finalCPUSet_no_cpus.
Qed.

(** The branch taken when only the CPU manager selected something. *)
Lemma finalCPUSet_cpu_only (i : internalContainerLifecycleImpl)
    (pod : Pod) (container : Container) (affinities : list GROUP_AFFINITY) :
  allocatedCPUsOf i pod container ≠ ∅ →
  numaNodesOf i pod container = ∅ →
  convertToGroupAffinities (allocatedCPUsOf i pod container) = Some affinities →
  finalCPUSet GetCPUsforNUMANode i pod container
  = ([], Ok (Some (computeCPUSet affinities))).
Proof.
  intros Hcpu Hnuma Hconv. unfold finalCPUSet.
  rewrite (proj2 (Len_zero _) Hnuma), andb_false_r.
  rewrite (proj2 (cpu_guard i pod container) Hcpu). by rewrite Hconv.
Qed.

(** ** The claims about the resolver *)

(** C2 (subset policy). Let [cpuSet] be the flattened selection of the CPU
    manager and [numaSet] the flattened union of the affinities of the
    selected NUMA nodes. When [cpuSet] is non-empty and contained in
    [numaSet] (so [numaSet] is non-empty and at least as large), the final
    set of the resolver is exactly [cpuSet]. *)
Theorem subset_policy (i : internalContainerLifecycleImpl)
    (pod : Pod) (container : Container)
    (affinities allNumaNodeCPUs : list GROUP_AFFINITY) (issued : list Z) :
  convertToGroupAffinities (allocatedCPUsOf i pod container) = Some affinities →
  gatherNUMANodeCPUs GetCPUsforNUMANode
    (Go.sorted (numaNodesOf i pod container)) [] []
    = (issued, Ok allNumaNodeCPUs) →
  computeCPUSet affinities ≠ ∅ →
  computeCPUSet affinities ⊆ computeCPUSet allNumaNodeCPUs →
  finalCPUSet GetCPUsforNUMANode i pod container
  = (issued, Ok (Some (computeCPUSet affinities))).
Proof.
  intros Hconv Hgather Hne Hsub.
  assert (computeCPUSet allNumaNodeCPUs ≠ ∅) as Hnuma by set_solver.
  rewrite (finalCPUSet_both i pod container affinities allNumaNodeCPUs issued);
    [|by eapply convert_empty_inv|by eapply gather_nonempty_inv|done|done].
  destruct (len _ >? len _); [done|].
  by rewrite (proj2 (subset_spec _ _) Hsub).
Qed.

(** C3 (superset policy). When [cpuSet] has more members than [numaSet],
    the final set of the resolver is exactly [cpuSet], whether or not the
    two sets overlap. *)
Theorem superset_policy (i : internalContainerLifecycleImpl)
    (pod : Pod) (container : Container)
    (affinities allNumaNodeCPUs : list GROUP_AFFINITY) (issued : list Z) :
  convertToGroupAffinities (allocatedCPUsOf i pod container) = Some affinities →
  gatherNUMANodeCPUs GetCPUsforNUMANode
    (Go.sorted (numaNodesOf i pod container)) [] []
    = (issued, Ok allNumaNodeCPUs) →
  (size (computeCPUSet affinities) > size (computeCPUSet allNumaNodeCPUs))%nat →
  finalCPUSet GetCPUsforNUMANode i pod container
  = (issued, Ok (Some (computeCPUSet affinities))).
Proof.
  intros Hconv Hgather Hsize.
  assert (computeCPUSet affinities ≠ ∅) as Hne.
  { intros Hempty. rewrite Hempty, size_empty in Hsize. lia. }
  assert (allocatedCPUsOf i pod container ≠ ∅) as Hcpu
    by (by eapply convert_empty_inv).
  destruct (decide (numaNodesOf i pod container = ∅)) as [Hnone|Hsome].
  - rewrite Hnone, sorted_empty in Hgather. simpl in Hgather.
    injection Hgather as <- <-. by apply finalCPUSet_cpu_only.
  - rewrite (finalCPUSet_both i pod container affinities allNumaNodeCPUs issued)
      by done.
    rewrite (proj2 (len_gtb _ _)); [done|lia].
Qed.

(** C4 (disjoint or partial overlap). When [cpuSet] is not larger than
    [numaSet] and is not a subset of it (so both are non-empty), the final
    set of the resolver is exactly the union of the two. *)
Theorem overlap_policy (i : internalContainerLifecycleImpl)
    (pod : Pod) (container : Container)
    (affinities allNumaNodeCPUs : list GROUP_AFFINITY) (issued : list Z) :
  convertToGroupAffinities (allocatedCPUsOf i pod container) = Some affinities →
  gatherNUMANodeCPUs GetCPUsforNUMANode
    (Go.sorted (numaNodesOf i pod container)) [] []
    = (issued, Ok allNumaNodeCPUs) →
  (size (computeCPUSet affinities) ≤ size (computeCPUSet allNumaNodeCPUs))%nat →
  ¬ computeCPUSet affinities ⊆ computeCPUSet allNumaNodeCPUs →
  finalCPUSet GetCPUsforNUMANode i pod container
  = (issued,
     Ok (Some (computeCPUSet affinities ∪ computeCPUSet allNumaNodeCPUs))).
Proof.
  intros Hconv Hgather Hsize Hnsub.
  assert (computeCPUSet affinities ≠ ∅) as Hne.
  { intros Hempty. apply Hnsub. rewrite Hempty. set_solver. }
  assert (computeCPUSet allNumaNodeCPUs ≠ ∅) as Hnuma.
  { intros Hempty. rewrite Hempty, size_empty in Hsize.
    apply Hne, size_zero_iff. lia. }
  rewrite (finalCPUSet_both i pod container affinities allNumaNodeCPUs issued);
    [|by eapply convert_empty_inv|by eapply gather_nonempty_inv|done|done].
  rewrite (proj2 (len_not_gtb _ _) Hsize).
  destruct (subset _ _) eqn:Hs; [by apply subset_spec in Hs|].
  by rewrite mergeSets_union.
Qed.

(** C5 (lookup failure). Whenever NUMA nodes are expanded, a failing lookup
    ends the loop at once with the error of that node: the lookups issued
    are those of the nodes up to and including the failing one, none for a
    later node. For [PreCreateContainer], which expands the nodes when both
    managers selected something: no final set is produced, the error is
    returned and the container configuration is the one passed in. *)
Theorem lookup_failure_aborts (i : internalContainerLifecycleImpl)
    (pod : Pod) (container : Container) (containerConfig : ContainerConfig)
    (pre post : list Z) (n : Z) (e : hostError)
    (acc : list GROUP_AFFINITY) (issued : list Z) :
  allocatedCPUsOf i pod container ≠ ∅ →
  Go.sorted (numaNodesOf i pod container) = pre ++ n :: post →
  (∀ m, m ∈ pre → ∃ a, GetCPUsforNUMANode (Go.uint16 m) = inr a) →
  GetCPUsforNUMANode (Go.uint16 n) = inl e →
  gatherNUMANodeCPUs GetCPUsforNUMANode (pre ++ n :: post) acc issued
  = (issued ++ (Go.uint16 <$> pre ++ [n]),
     Fail {| failedNode := n; cause := e |})
  ∧ finalCPUSet GetCPUsforNUMANode i pod container
    = (Go.uint16 <$> pre ++ [n], Fail {| failedNode := n; cause := e |})
  ∧ PreCreateContainer GetCPUsforNUMANode true i pod container containerConfig
    = {| lookups := Go.uint16 <$> pre ++ [n];
         config := containerConfig;
         returned := Fail {| failedNode := n; cause := e |} |}.
Proof.
  intros Hcpu Hnodes Hpre Hn. split; [by apply gather_fail|].
  assert (numaNodesOf i pod container ≠ ∅) as Hnuma.
  { intros Hempty. rewrite Hempty, sorted_empty in Hnodes.
    by destruct pre. }
  assert (finalCPUSet GetCPUsforNUMANode i pod container
          = (Go.uint16 <$> pre ++ [n], Fail {| failedNode := n; cause := e |}))
    as Hfinal.
  { unfold finalCPUSet. rewrite <- andb_assoc.
    rewrite (proj2 (cpu_guard i pod container) Hcpu).
    rewrite (proj2 (memory_guard i pod container) Hnuma). cbn [andb].
    rewrite Hnodes, (gather_fail pre post n e [] []) by done. done. }
  split; [done|]. unfold PreCreateContainer. cbn [negb]. by rewrite Hfinal.
Qed.

(** C9 (neither manager selected anything). When each manager is nil or
    returns an empty set, [PreCreateContainer] returns the nil error, issues
    no lookup and leaves the container configuration as it was passed in:
    its affinity is not replaced, not even by an empty list. *)
Theorem no_selection_leaves_config (gate : bool)
    (i : internalContainerLifecycleImpl) (pod : Pod) (container : Container)
    (containerConfig : ContainerConfig) :
  allocatedCPUsOf i pod container = ∅ →
  numaNodesOf i pod container = ∅ →
  finalCPUSet GetCPUsforNUMANode i pod container = ([], Ok None)
  ∧ PreCreateContainer GetCPUsforNUMANode gate i pod container containerConfig
    = {| lookups := []; config := containerConfig; returned := Ok () |}.
Proof.
  intros Hcpu _. split.
  - by apply finalCPUSet_no_cpus.
  - by apply PreCreateContainer_no_cpus.
Qed.

(** C10 (every branch is guarded by the CPU selection). When the CPU manager
    is nil or returns an empty set, [PreCreateContainer] issues no NUMA-node
    lookup and writes no affinity, whatever the memory manager selected. *)
Theorem no_cpus_no_lookup (gate : bool)
    (i : internalContainerLifecycleImpl) (pod : Pod) (container : Container)
    (containerConfig : ContainerConfig) :
  cpuManager i = None ∨ allocatedCPUsOf i pod container = ∅ →
  let r := PreCreateContainer GetCPUsforNUMANode gate i pod container
             containerConfig in
  lookups r = [] ∧ config r = containerConfig ∧ returned r = Ok ().
Proof.
  intros Hcpu.
  assert (allocatedCPUsOf i pod container = ∅) as Hempty.
  { destruct Hcpu as [Hnil|?]; [by apply allocatedCPUs_nil|done]. }
  simpl. by rewrite PreCreateContainer_no_cpus.
Qed.

End ResolverProperties.

(** ** The claims about the converter *)

(** C6 as stated fails: CPU 4194304 lies in group 65536, which the 16-bit
    group of [GROUP_AFFINITY] stores as 0, so the set that holds it flattens
    to the set that holds CPU 0, through [convertToGroupAffinities] and
    through the masks of [groupMasks] alike. *)
Lemma large_cpu_index_flattens_to_zero :
  (∀ c, c ∈ ({[4194304]} : gset Z) → 0 ≤ c)
  ∧ convertToGroupAffinities {[4194304]} = Some [ga 0 1]
  ∧ groupMasks {[4194304]} = Some {[65536 := 1]}
  ∧ affinitiesOfMasks {[65536 := 1]} = [ga 0 1]
  ∧ computeCPUSet [ga 0 1] = {[0]}
  ∧ computeCPUSet [ga 0 1] ≠ {[4194304]}.
Proof.
  split; [intros c Hc; apply elem_of_singleton in Hc; lia|].
  split; [by vm_compute|]. split; [by vm_compute|].
  split; [by vm_compute|]. split; [by vm_compute|].
  intros H. assert ((4194304 : Z) ∈ computeCPUSet [ga 0 1]) as Hin
    by (rewrite H; by apply elem_of_singleton).
  apply elem_of_computeCPUSet in Hin as (a & Ha & Hin).
  apply list_elem_of_singleton in Ha as ->.
  apply elem_of_Processors in Hin as (b & Hb & _ & Heq). simpl in Heq. lia.
Qed.

(** C6, amended (round trip). For a set of CPUs below [maxCPUs], the
    indices a 16-bit group can address, flattening either encoding of the set
    gives the set back; and for affinities with 64-bit masks and pairwise
    distinct groups, group-encoding their flattening gives the same
    group-to-mask mapping, the entries with a zero mask being absent. *)
Theorem flatten_encode_roundtrip (cpuSet : gset Z) (affinities : list GROUP_AFFINITY) :
  (∀ c, c ∈ cpuSet → 0 ≤ c < maxCPUs) →
  Forall (λ a, 0 ≤ Group a < 2 ^ 16 ∧ 0 ≤ Mask a < 2 ^ 64) affinities →
  NoDup (Group <$> affinities) →
  (∃ single, convertToGroupAffinities cpuSet = Some single
             ∧ computeCPUSet single = cpuSet)
  ∧ (∃ masks, groupMasks cpuSet = Some masks
              ∧ computeCPUSet (affinitiesOfMasks masks) = cpuSet)
  ∧ groupMasks (computeCPUSet affinities) = Some (maskMapOf affinities)
  ∧ (∀ a, a ∈ affinities →
       maskMapOf affinities !! Group a
       = if decide (Mask a = 0) then None else Some (Mask a)).
Proof.
  intros Hc Hwf Hnd.
  assert (∀ c, c ∈ cpuSet → 0 ≤ c) as Hnonneg
    by (intros c Hin; apply Hc in Hin; lia).
  split; [|split; [|split]].
  - exists (singleBit <$> Go.sorted cpuSet). split.
    + by apply convertToGroupAffinities_nonneg.
    + by apply flatten_singleBits.
  - destruct (groupMasks_spec cpuSet Hnonneg) as (masks & Hm & _).
    exists masks. split; [done|]. by apply flatten_groupMasks.
  - apply groupMasks_flatten; [|done].
    eapply Forall_impl; [done|]. naive_solver.
  - intros a Ha. unfold maskMapOf.
    assert (NoDup ((λ a, (Group a, Mask a)) <$>
                     filter (λ a, Mask a ≠ 0) affinities).*1) as Hnd'.
    { rewrite <- list_fmap_compose.
      eapply (sublist_NoDup _ (Group <$> affinities)); [done|].
      apply fmap_sublist, sublist_filter. }
    destruct (decide (Mask a = 0)) as [Hz|Hnz].
    + apply not_elem_of_list_to_map_1. rewrite <- list_fmap_compose.
      intros Hin. apply list_elem_of_fmap in Hin as (a' & Hg & Hin).
      apply list_elem_of_filter in Hin as [Hnz Hin]. simpl in Hg.
      assert (a' = a) as -> by (by eapply (NoDup_fmap_eq Group)). done.
    + apply elem_of_list_to_map_1; [done|].
      apply list_elem_of_fmap. exists a. split; [done|].
      by apply list_elem_of_filter.
Qed.

(** C7 as stated fails for [convertToGroupAffinities]: CPU 4194304 has
    group 4194304 / 64 = 65536, and the affinity emitted for it has
    group 0. *)
Lemma large_cpu_index_wraps_group :
  0 ≤ 4194304
  ∧ 4194304 / 64 = 65536
  ∧ convertToGroupAffinities {[4194304]}
    = Some [ {| Mask := Z.shiftl 1 (4194304 mod 64); Group := 0;
                Reserved := (0, 0, 0) |} ]
  ∧ convertToGroupAffinities {[4194304]}
    ≠ Some [ {| Mask := Z.shiftl 1 (4194304 mod 64); Group := 4194304 / 64;
                Reserved := (0, 0, 0) |} ].
Proof.
  split; [lia|]. split; [done|]. split; [by vm_compute|].
  by vm_compute.
Qed.

(** C7, amended (bit correctness). For every non-negative CPU index [c],
    [groupMasks] encodes [c] at group [c / 64] and bit [c mod 64], and
    [convertToGroupAffinities] emits for [c] the single-bit pair of the
    group [c / 64] kept to 16 bits and the mask [1 << (c mod 64)]; the group
    is [c / 64] itself when [c < maxCPUs]. An affinity with mask [1 << k],
    [k] below 64, at group [g] flattens to exactly [{g*64 + k}]. *)
Theorem bit_correctness (c g k : Z) (r : Z * Z * Z) :
  0 ≤ c → 0 ≤ k < 64 →
  groupMasks {[c]} = Some {[c / 64 := Z.shiftl 1 (c mod 64)]}
  ∧ convertToGroupAffinities {[c]}
    = Some [ {| Mask := Z.shiftl 1 (c mod 64); Group := (c / 64) mod 2 ^ 16;
                Reserved := (0, 0, 0) |} ]
  ∧ (c < maxCPUs →
     convertToGroupAffinities {[c]}
     = Some [ {| Mask := Z.shiftl 1 (c mod 64); Group := c / 64;
                 Reserved := (0, 0, 0) |} ])
  ∧ computeCPUSet [ {| Mask := Z.shiftl 1 k; Group := g; Reserved := r |} ]
    = {[g * 64 + k]}.
Proof.
  intros Hc Hk.
  assert (convertToGroupAffinities {[c]} = Some [singleBit c]) as Hconv.
  { rewrite convertToGroupAffinities_nonneg.
    - by rewrite sorted_singleton.
    - intros c' Hc'. apply elem_of_singleton in Hc'. lia. }
  split; [|split; [|split]].
  - unfold groupMasks. rewrite elements_singleton. cbn [group_cpus].
    rewrite shl64_cpu, div_nonneg by done. unfold maskAt.
    rewrite lookup_empty. simpl. by rewrite insert_empty.
  - exact Hconv.
  - intros Hlt. rewrite Hconv. unfold singleBit, ga, maxCPUs in *.
    rewrite uint16_small; [done|].
    split; [apply Z.div_pos; lia | apply Z.div_lt_upper_bound; lia].
  - apply set_eq. intros x. rewrite elem_of_computeCPUSet, elem_of_singleton.
    split.
    + intros (a & Ha & Hx). apply list_elem_of_singleton in Ha as ->.
      by apply elem_of_Processors_bit in Hx.
    + intros ->. eexists. split; [by apply list_elem_of_singleton|].
      by apply elem_of_Processors_bit.
Qed.

(** C8 (mask invariant). For a set of CPU indices in [0..hostCount-1]:
    [convertToGroupAffinities] emits one affinity per CPU, whose mask has
    the single bit [c mod 64] set and nothing above bit 63; every mask of
    [groupMasks] has nothing above bit 63, bit [b] of the mask of group [g]
    is set exactly when CPU [g*64 + b] is in the set, and a CPU stands for
    one pair of a group and a bit only, [c / 64] and [c mod 64]. *)
Theorem masks_within_64_bits (hostCount : Z) (cpuSet : gset Z) :
  (∀ c, c ∈ cpuSet → 0 ≤ c < hostCount) →
  (∃ single,
     convertToGroupAffinities cpuSet = Some single
     ∧ single = singleBit <$> Go.sorted cpuSet
     ∧ length single = size cpuSet
     ∧ (∀ a, a ∈ single →
          0 ≤ Mask a < 2 ^ 64 ∧ ∀ n, 64 ≤ n → Z.testbit (Mask a) n = false)
     ∧ (∀ c b, c ∈ cpuSet →
          Z.testbit (Mask (singleBit c)) b = true ↔ b = c mod 64))
  ∧ (∃ masks,
       groupMasks cpuSet = Some masks
       ∧ (∀ g mask, masks !! g = Some mask →
            0 ≤ mask < 2 ^ 64 ∧ ∀ n, 64 ≤ n → Z.testbit mask n = false)
       ∧ (∀ g b, 0 ≤ b < 64 →
            Z.testbit (maskAt masks g) b = true ↔ g * 64 + b ∈ cpuSet)
       ∧ (∀ c g b, c ∈ cpuSet → 0 ≤ b < 64 → g * 64 + b = c →
            g = c / 64 ∧ b = c mod 64)).
Proof.
  intros Hc.
  assert (∀ c, c ∈ cpuSet → 0 ≤ c) as Hnonneg
    by (intros c Hin; apply Hc in Hin; lia).
  assert (∀ c, 0 ≤ Mask (singleBit c) < 2 ^ 64) as Hsingle.
  { intros c. simpl. rewrite Z.shiftl_1_l.
    pose proof (Z.mod_pos_bound c 64 ltac:(lia)).
    split; [apply Z.pow_nonneg; lia | apply Z.pow_lt_mono_r; lia]. }
  split.
  - exists (singleBit <$> Go.sorted cpuSet).
    split; [by apply convertToGroupAffinities_nonneg|]. split; [done|].
    split; [by rewrite length_fmap, length_sorted|]. split.
    + intros a Ha. apply list_elem_of_fmap in Ha as (c & -> & _).
      split; [done|]. intros n Hn. by apply bits_above_63.
    + intros c b _. simpl. apply testbit_single.
      apply Z.mod_pos_bound. lia.
  - destruct (groupMasks_spec cpuSet Hnonneg) as (masks & Hm & Hdom & Hbits).
    exists masks. split; [done|]. split; [|split].
    + intros g mask Hg.
      pose proof (groupMasks_range cpuSet masks g mask Hnonneg Hm Hg).
      split; [lia|]. intros n Hn. apply bits_above_63; lia.
    + intros g b Hb. rewrite Hbits by lia. naive_solver lia.
    + intros c g b _ Hb Heq. by apply group_bit_unique.
Qed.

(** ** The memory manager alone *)

(** C1 fails on the code. With no CPU manager and a memory manager that
    selects NUMA nodes 0 and 1, expanding the nodes would give the 68
    processors of the two nodes; [PreCreateContainer] looks up no node,
    chooses no final set and leaves the configuration as it was, because
    the branch for the memory manager alone is guarded by the CPU selection
    being non-empty. *)
Lemma memory_manager_only_selects_nothing :
  let i := memoryManagerOnly {[0; 1]} in
  allocatedCPUsOf i samplePod sampleContainer = ∅
  ∧ numaNodesOf i samplePod sampleContainer = {[0; 1]}
  ∧ gatherNUMANodeCPUs sampleLookup (Go.sorted {[0; 1]}) [] []
    = ([0; 1], Ok [ga 0 (2 ^ 64 - 1); ga 1 15])
  ∧ size (computeCPUSet [ga 0 (2 ^ 64 - 1); ga 1 15]) = 68%nat
  ∧ finalCPUSet sampleLookup i samplePod sampleContainer = ([], Ok None)
  ∧ PreCreateContainer sampleLookup true i samplePod sampleContainer sampleConfig
    = {| lookups := []; config := sampleConfig; returned := Ok () |}.
Proof. repeat split; by vm_compute. Qed.

(** ** Instances *)

Lemma subset_policy_witness :
  finalCPUSet sampleLookup (bothManagers {[0; 1; 2; 3]} {[0; 1]})
    samplePod sampleContainer
  = ([0; 1], Ok (Some (computeCPUSet (singleBit <$> [0; 1; 2; 3])))).
Proof.
  apply (subset_policy sampleLookup (bothManagers {[0; 1; 2; 3]} {[0; 1]})
           samplePod sampleContainer (singleBit <$> [0; 1; 2; 3])
           [ga 0 (2 ^ 64 - 1); ga 1 15] [0; 1]).
  - vm_compute. reflexivity.
  - vm_compute. reflexivity.
  - vm_compute. discriminate.
  - apply subset_spec. vm_compute. reflexivity.
Defined.

Lemma superset_policy_witness :
  finalCPUSet sampleLookup
    (bothManagers {[0; 1; 2; 3; 4; 5; 6; 7; 8; 9]} {[1]})
    samplePod sampleContainer
  = ([1], Ok (Some (computeCPUSet
                      (singleBit <$> [0; 1; 2; 3; 4; 5; 6; 7; 8; 9])))).
Proof.
  apply (superset_policy sampleLookup
           (bothManagers {[0; 1; 2; 3; 4; 5; 6; 7; 8; 9]} {[1]})
           samplePod sampleContainer
           (singleBit <$> [0; 1; 2; 3; 4; 5; 6; 7; 8; 9]) [ga 1 15] [1]).
  - vm_compute. reflexivity.
  - vm_compute. reflexivity.
  - vm_compute. lia.
Defined.

Lemma overlap_policy_witness :
  finalCPUSet sampleLookup (bothManagers {[0; 70]} {[1]})
    samplePod sampleContainer
  = ([1], Ok (Some (computeCPUSet (singleBit <$> [0; 70])
                    ∪ computeCPUSet [ga 1 15]))).
Proof.
  apply (overlap_policy sampleLookup (bothManagers {[0; 70]} {[1]})
           samplePod sampleContainer (singleBit <$> [0; 70]) [ga 1 15] [1]).
  - vm_compute. reflexivity.
  - vm_compute. reflexivity.
  - vm_compute. lia.
  - rewrite <- subset_spec. vm_compute. discriminate.
Defined.

Lemma lookup_failure_aborts_witness :
  PreCreateContainer sampleLookup true (bothManagers {[0; 1; 2; 3]} {[0; 1; 2; 5]})
    samplePod sampleContainer sampleConfig
  = {| lookups := [0; 1; 2];
       config := sampleConfig;
       returned := Fail {| failedNode := 2; cause := "no such node" |} |}.
Proof.
  apply (lookup_failure_aborts sampleLookup
           (bothManagers {[0; 1; 2; 3]} {[0; 1; 2; 5]})
           samplePod sampleContainer sampleConfig
           [0; 1] [5] 2 "no such node" [] []).
  - vm_compute. discriminate.
  - vm_compute. reflexivity.
  - intros m Hm.
    apply elem_of_cons in Hm as [->|Hm]; [eexists; vm_compute; reflexivity|].
    apply list_elem_of_singleton in Hm as ->. eexists. vm_compute. reflexivity.
  - vm_compute. reflexivity.
Defined.

Lemma no_selection_leaves_config_witness :
  PreCreateContainer sampleLookup true (bothManagers ∅ ∅)
    samplePod sampleContainer sampleConfig
  = {| lookups := []; config := sampleConfig; returned := Ok () |}.
Proof.
  apply (no_selection_leaves_config sampleLookup true (bothManagers ∅ ∅)
           samplePod sampleContainer sampleConfig).
  - reflexivity.
  - reflexivity.
Defined.

Lemma no_cpus_no_lookup_witness :
  config (PreCreateContainer sampleLookup true (memoryManagerOnly {[0; 1]})
            samplePod sampleContainer sampleConfig)
  = sampleConfig.
Proof.
  apply (no_cpus_no_lookup sampleLookup true (memoryManagerOnly {[0; 1]})
           samplePod sampleContainer sampleConfig).
  left. reflexivity.
Defined.

Lemma flatten_encode_roundtrip_witness :
  groupMasks (computeCPUSet [ga 0 10; ga 1 9])
  = Some (maskMapOf [ga 0 10; ga 1 9]).
Proof.
  apply (flatten_encode_roundtrip {[1; 3; 64; 67]} [ga 0 10; ga 1 9]).
  - intros c Hc. unfold maxCPUs. set_unfold. lia.
  - repeat constructor; simpl; lia.
  - apply (bool_decide_unpack _). vm_compute. exact I.
Defined.

Lemma bit_correctness_witness :
  groupMasks {[65]} = Some {[65 / 64 := Z.shiftl 1 (65 mod 64)]}.
Proof.
  apply (bit_correctness 65 1 1 (0, 0, 0)); lia.
Defined.

Lemma masks_within_64_bits_witness :
  ∃ masks,
    groupMasks {[0; 65]} = Some masks
    ∧ (∀ g mask, masks !! g = Some mask →
         0 ≤ mask < 2 ^ 64 ∧ ∀ n, 64 ≤ n → Z.testbit mask n = false)
    ∧ (∀ g b, 0 ≤ b < 64 →
         Z.testbit (maskAt masks g) b = true ↔ g * 64 + b ∈ ({[0; 65]} : gset Z))
    ∧ (∀ c g b, c ∈ ({[0; 65]} : gset Z) → 0 ≤ b < 64 → g * 64 + b = c →
         g = c / 64 ∧ b = c mod 64).
Proof.
  apply (masks_within_64_bits 128 {[0; 65]}).
  intros c Hc. set_unfold. lia.
Defined.

(** ** The scenarios of the package tests *)

Example flatten_two_groups :
  computeCPUSet [ga 0 10; ga 1 9] = {[1; 3; 64; 67]}.
Proof. by vm_compute. Qed.

Example subset_cases :
  subset {[1; 2]} {[1; 2; 3]} = true
  ∧ subset {[1; 4]} {[1; 2; 3]} = false
  ∧ subset ∅ {[1; 2; 3]} = true
  ∧ subset {[1; 2; 3]} {[1; 2]} = false.
Proof. repeat split; by vm_compute. Qed.

Example mergeSets_cases :
  mergeSets {[1; 2]} {[2; 3]} = {[1; 2; 3]}
  ∧ mergeSets {[1; 2]} ∅ = {[1; 2]}
  ∧ mergeSets {[1; 2]} {[1; 2]} = {[1; 2]}.
Proof. repeat split; by vm_compute. Qed.

Example encode_cpu_0_and_65 :
  convertToGroupAffinities {[0; 65]} = Some [ga 0 1; ga 1 2]
  ∧ groupMasks {[0; 65]} = Some {[0 := 1; 1 := 2]}.
Proof. split; by vm_compute. Qed.

Example groupMasks_two_groups :
  groupMasks {[0; 2; 64; 66]} = Some {[0 := 5; 1 := 5]}.
Proof. by vm_compute. Qed.

(** A negative CPU index makes the shift count negative. *)
Example negative_cpu_panics :
  convertToGroupAffinities {[-1]} = None ∧ groupMasks {[-1]} = None.
Proof. split; by vm_compute. Qed.

(** With both managers present the affinity written is the encoding of the
    final set. *)
Example both_managers_write_affinity :
  PreCreateContainer sampleLookup true (bothManagers {[0; 1; 2; 3]} {[0; 1]})
    samplePod sampleContainer sampleConfig
  = {| lookups := [0; 1];
       config := {| Windows := Some {| Resources := Some
                     {| AffinityCpus := [ {| CpuGroup := 0; CpuMask := 15 |} ] |} |} |};
       returned := Ok () |}.
Proof. by vm_compute. Qed.

(** * Further properties of the converter and the set operations *)

Lemma rem_negative (c : Z) : Go.rem c 64 < 0 ↔ c < 0 ∧ c mod 64 ≠ 0.
Proof.
  unfold Go.rem. Z.to_euclidean_division_equations. lia.
Qed.

Lemma shl64_none (x k : Z) : Go.shl64 x k = None ↔ k < 0.
Proof. unfold Go.shl64. destruct (decide (k < 0)); naive_solver. Qed.

Lemma convert_cpus_none (cpus : list Z) (affinities : list GROUP_AFFINITY) :
  convert_cpus cpus affinities = None ↔ ∃ c, c ∈ cpus ∧ Go.rem c 64 < 0.
Proof.
  revert affinities. induction cpus as [|c cpus IH]; intros affinities.
  - simpl. split; [done|]. intros (c & Hc & _). by apply elem_of_nil in Hc.
  - cbn [convert_cpus]. destruct (Go.shl64 1 (Go.rem c 64)) as [mask|] eqn:E.
    + assert (¬ Go.rem c 64 < 0) as Hok.
      { intros Hneg. apply (shl64_none 1) in Hneg. congruence. }
      rewrite IH. setoid_rewrite elem_of_cons. naive_solver.
    + apply shl64_none in E. split; [|done]. intros _. exists c.
      split; [by left|done].
Qed.

Lemma convert_cpus_length (cpus : list Z) (affinities out : list GROUP_AFFINITY) :
  convert_cpus cpus affinities = Some out →
  length out = (length affinities + length cpus)%nat.
Proof.
  revert affinities. induction cpus as [|c cpus IH]; intros affinities H.
  - simpl in H. injection H as <-. simpl. lia.
  - cbn [convert_cpus] in H. destruct (Go.shl64 1 (Go.rem c 64)); [|done].
    apply IH in H. rewrite length_app in H. simpl in *. lia.
Qed.

Lemma group_cpus_none (cpus : list Z) (masks : gmap Z Z) :
  group_cpus cpus masks = None ↔ ∃ c, c ∈ cpus ∧ Go.rem c 64 < 0.
Proof.
  revert masks. induction cpus as [|c cpus IH]; intros masks.
  - simpl. split; [done|]. intros (c & Hc & _). by apply elem_of_nil in Hc.
  - cbn [group_cpus]. destruct (Go.shl64 1 (Go.rem c 64)) as [mask|] eqn:E.
    + assert (¬ Go.rem c 64 < 0) as Hok.
      { intros Hneg. apply (shl64_none 1) in Hneg. congruence. }
      rewrite IH. setoid_rewrite elem_of_cons. naive_solver.
    + apply shl64_none in E. split; [|done]. intros _. exists c.
      split; [by left|done].
Qed.

(** Two steps of the loop of [groupMasks] commute. *)
Lemma group_cpus_swap (c1 c2 : Z) (cpus : list Z) (masks : gmap Z Z) :
  group_cpus (c1 :: c2 :: cpus) masks = group_cpus (c2 :: c1 :: cpus) masks.
Proof.
  cbn [group_cpus].
  destruct (Go.shl64 1 (Go.rem c1 64)) as [m1|],
           (Go.shl64 1 (Go.rem c2 64)) as [m2|]; try done.
  f_equal. unfold maskAt.
  destruct (decide (Go.div c1 64 = Go.div c2 64)) as [->|Hne].
  - rewrite !lookup_insert_eq, !insert_insert_eq. simpl.
    f_equal. rewrite <- !Z.lor_assoc. f_equal. apply Z.lor_comm.
  - rewrite !lookup_insert_ne by done. by apply insert_insert_ne.
Qed.

Lemma group_cpus_Permutation (cpus cpus' : list Z) (masks : gmap Z Z) :
  cpus ≡ₚ cpus' → group_cpus cpus masks = group_cpus cpus' masks.
Proof.
  intros Hperm. revert masks.
  induction Hperm as [|c l l' _ IH|c1 c2 l|l l' l'' _ IH1 _ IH2]; intros masks.
  - done.
  - cbn [group_cpus]. destruct (Go.shl64 1 (Go.rem c 64)); [|done]. apply IH.
  - apply group_cpus_swap.
  - by rewrite IH1.
Qed.

(** X1. [subset set1 set2] is [true] exactly when every member of [set1] is
    a member of [set2]; in particular the empty set is a subset of every
    set and every set is a subset of itself, and a subset is never
    larger. *)
Theorem subset_decides_inclusion (set1 set2 : gset Z) :
  (subset set1 set2 = true ↔ ∀ k, k ∈ set1 → k ∈ set2)
  ∧ subset ∅ set2 = true
  ∧ subset set1 set1 = true
  ∧ (subset set1 set2 = true → (size set1 ≤ size set2)%nat).
Proof.
  split; [|split; [|split]].
  - rewrite subset_spec. set_solver.
  - apply subset_spec. set_solver.
  - by apply subset_spec.
  - intros H. apply subset_spec in H. by apply subseteq_size.
Qed.

(** X2. [mergeSets] is the union: a CPU is in the merged set exactly when
    it is in one of the two; merging is commutative and idempotent, the
    empty set is neutral, and the merged set has at most as many members as
    the two sets together. *)
Theorem mergeSets_is_union (set1 set2 : gset Z) :
  (∀ k, k ∈ mergeSets set1 set2 ↔ k ∈ set1 ∨ k ∈ set2)
  ∧ mergeSets set1 set2 = mergeSets set2 set1
  ∧ mergeSets set1 set1 = set1
  ∧ mergeSets set1 ∅ = set1
  ∧ mergeSets ∅ set2 = set2
  ∧ (size (mergeSets set1 set2) ≤ size set1 + size set2)%nat.
Proof.
  rewrite !mergeSets_union. repeat split; try set_solver.
  rewrite size_union_alt.
  pose proof (subseteq_size (set2 ∖ set1) set2 ltac:(set_solver)). lia.
Qed.

(** X3. [computeCPUSet] flattens a concatenation to the union of the
    flattenings, so duplicate processors collapse, and its result does not
    depend on the order of the affinities. *)
Theorem computeCPUSet_app (l1 l2 : list GROUP_AFFINITY) :
  computeCPUSet (l1 ++ l2) = computeCPUSet l1 ∪ computeCPUSet l2
  ∧ computeCPUSet (l1 ++ l1) = computeCPUSet l1
  ∧ (∀ l, l ≡ₚ l1 → computeCPUSet l = computeCPUSet l1).
Proof.
  assert (∀ l l', computeCPUSet (l ++ l') = computeCPUSet l ∪ computeCPUSet l')
    as Happ.
  { intros l l'. apply set_eq. intros x.
    rewrite elem_of_union, !elem_of_computeCPUSet.
    setoid_rewrite elem_of_app. naive_solver. }
  split; [done|]. split.
  - rewrite Happ. set_solver.
  - intros l Hperm. apply set_eq. intros x. rewrite !elem_of_computeCPUSet.
    by setoid_rewrite Hperm.
Qed.

(** X4. [convertToGroupAffinities] panics exactly when the set holds a
    negative CPU index that is not a multiple of 64 (the remainder, hence
    the shift count, is then negative); otherwise it returns one affinity
    per CPU. *)
Theorem convertToGroupAffinities_panics (cpuSet : gset Z) :
  (convertToGroupAffinities cpuSet = None
   ↔ ∃ c, c ∈ cpuSet ∧ c < 0 ∧ c mod 64 ≠ 0)
  ∧ (∀ affinities, convertToGroupAffinities cpuSet = Some affinities →
       length affinities = size cpuSet).
Proof.
  unfold convertToGroupAffinities. split.
  - rewrite convert_cpus_none. setoid_rewrite elem_of_sorted.
    by setoid_rewrite rem_negative.
  - intros affinities H. apply convert_cpus_length in H.
    by rewrite H, length_sorted.
Qed.

(** X5. [groupMasks] panics exactly when the set holds a negative CPU index
    that is not a multiple of 64; the empty set encodes to the empty map. *)
Theorem groupMasks_panics (cpuSet : gset Z) :
  (groupMasks cpuSet = None ↔ ∃ c, c ∈ cpuSet ∧ c < 0 ∧ c mod 64 ≠ 0)
  ∧ groupMasks ∅ = Some ∅.
Proof.
  unfold groupMasks. split.
  - rewrite group_cpus_none. setoid_rewrite elem_of_elements.
    by setoid_rewrite rem_negative.
  - by rewrite elements_empty.
Qed.

(** X6. The result of [groupMasks] does not depend on the order in which
    the CPUs of the set are ranged over: the loop run over any listing of
    the set gives the same map (or the same panic). *)
Theorem groupMasks_order_independent (cpuSet : gset Z) (cpus : list Z) :
  cpus ≡ₚ elements cpuSet → group_cpus cpus ∅ = groupMasks cpuSet.
Proof. intros Hperm. by apply group_cpus_Permutation. Qed.

(** X7. For a set of non-negative CPU indices the map of [groupMasks] has
    an entry for a group exactly when some CPU of the set lies in that
    group, and no entry has a zero mask. *)
Theorem groupMasks_groups (cpuSet : gset Z) :
  (∀ c, c ∈ cpuSet → 0 ≤ c) →
  ∃ masks, groupMasks cpuSet = Some masks
    ∧ (∀ g, is_Some (masks !! g) ↔ ∃ c, c ∈ cpuSet ∧ c / 64 = g)
    ∧ (∀ g mask, masks !! g = Some mask → mask ≠ 0).
Proof.
  intros Hc. destruct (groupMasks_spec cpuSet Hc) as (masks & Hm & Hdom & _).
  exists masks. split; [done|]. split; [done|].
  intros g mask Hg. pose proof (groupMasks_range cpuSet masks g mask Hc Hm Hg).
  lia.
Qed.

(** X8. [groupMasks] loses nothing on non-negative CPU indices, however
    large: two sets with the same masks are the same set. *)
Theorem groupMasks_injective (set1 set2 : gset Z) :
  (∀ c, c ∈ set1 → 0 ≤ c) → (∀ c, c ∈ set2 → 0 ≤ c) →
  groupMasks set1 = groupMasks set2 → set1 = set2.
Proof.
  intros H1 H2 Heq.
  destruct (groupMasks_spec set1 H1) as (m1 & Hm1 & _ & Hb1).
  destruct (groupMasks_spec set2 H2) as (m2 & Hm2 & _ & Hb2).
  assert (m1 = m2) as -> by congruence.
  assert (∀ s t : gset Z,
            (∀ c, c ∈ s → 0 ≤ c) →
            (∀ g b, 0 ≤ b → Z.testbit (maskAt m2 g) b = true
                            ↔ b < 64 ∧ g * 64 + b ∈ s) →
            (∀ g b, 0 ≤ b → Z.testbit (maskAt m2 g) b = true
                            ↔ b < 64 ∧ g * 64 + b ∈ t) →
            ∀ x, x ∈ s → x ∈ t) as Hincl.
  { intros s t Hs Hbs Hbt x Hx. pose proof (Hs x Hx) as Hx0.
    pose proof (Z.mod_pos_bound x 64 ltac:(lia)) as Hmod.
    pose proof (Z.div_mod x 64 ltac:(lia)) as Hdm.
    assert (x / 64 * 64 + x mod 64 = x) as Hsplit by lia.
    assert (Z.testbit (maskAt m2 (x / 64)) (x mod 64) = true) as Hbit.
    { apply Hbs; [lia|]. rewrite Hsplit. split; [lia|done]. }
    apply Hbt in Hbit as [_ Hin]; [|lia]. by rewrite Hsplit in Hin. }
  apply set_eq. intros x. split; by eapply Hincl.
Qed.

(** X9. The composition [computeCPUSet (convertToGroupAffinities s)] used
    for the CPU manager's selection keeps a non-negative CPU index modulo
    4194304 (64 processors in each of 2^16 groups): a CPU is in the result
    exactly when it is the residue of a CPU of [s]. *)
Theorem flatten_convert_wraps (cpuSet : gset Z) (x : Z) :
  (∀ c, c ∈ cpuSet → 0 ≤ c) →
  ∃ affinities, convertToGroupAffinities cpuSet = Some affinities
    ∧ (x ∈ computeCPUSet affinities ↔ ∃ c, c ∈ cpuSet ∧ x = c mod maxCPUs).
Proof.
  intros Hc. exists (singleBit <$> Go.sorted cpuSet).
  split; [by apply convertToGroupAffinities_nonneg|].
  assert (∀ c, 0 ≤ c → ∀ y, y ∈ Processors (singleBit c) ↔ y = c mod maxCPUs)
    as Hsingle.
  { intros c Hc0 y. unfold singleBit, ga.
    rewrite elem_of_Processors_bit by (apply Z.mod_pos_bound; lia).
    unfold maxCPUs, Go.uint16, Go.wrap.
    rewrite (Z.rem_mul_r c 64 (2 ^ 16)) by lia. split; intros ->; lia. }
  rewrite elem_of_computeCPUSet. split.
  - intros (a & Ha & Hx). apply list_elem_of_fmap in Ha as (c & -> & Hin).
    apply elem_of_sorted in Hin. exists c. split; [done|].
    apply Hsingle in Hx; [done|by apply Hc].
  - intros (c & Hin & ->). exists (singleBit c). split.
    + apply list_elem_of_fmap. exists c. split; [done|].
      by apply elem_of_sorted.
    + apply Hsingle; [by apply Hc|done].
Qed.

(** * Further properties of the resolver *)

Section ResolverRuns.

Context {hostError : Type}.
Variable GetCPUsforNUMANode : Z → hostError + GROUP_AFFINITY.


Lemma gather_error (nodes : list Z) (acc : list GROUP_AFFINITY)
    (issued : list Z) (e : lookupError hostError) :
  (gatherNUMANodeCPUs GetCPUsforNUMANode nodes acc issued).2 = Fail e →
  failedNode e ∈ nodes
  ∧ GetCPUsforNUMANode (Go.uint16 (failedNode e)) = inl (cause e).
Proof.
  revert acc issued. induction nodes as [|n nodes IH]; intros acc issued.
  - done.
  - cbn [gatherNUMANodeCPUs].
    destruct (GetCPUsforNUMANode (Go.uint16 n)) as [e'|a] eqn:E.
    + simpl. intros [= <-]. simpl. split; [by left|done].
    + intros H. apply IH in H as [Hin Hl]. split; [by right|done].
Qed.

Lemma gather_ok_iff (nodes : list Z) (acc affinities : list GROUP_AFFINITY)
    (issued issued' : list Z) :
  gatherNUMANodeCPUs GetCPUsforNUMANode nodes acc issued
    = (issued', Ok affinities)
  ↔ ∃ found,
      Forall2 (λ n a, GetCPUsforNUMANode (Go.uint16 n) = inr a) nodes found
      ∧ affinities = acc ++ found
      ∧ issued' = issued ++ (Go.uint16 <$> nodes).
Proof.
  revert acc issued. induction nodes as [|n nodes IH]; intros acc issued.
  - simpl. split.
    + intros [= <- <-]. exists []. by rewrite !app_nil_r.
    + intros (found & Hf & -> & ->). apply Forall2_nil_inv_l in Hf as ->.
      by rewrite !app_nil_r.
  - cbn [gatherNUMANodeCPUs].
    destruct (GetCPUsforNUMANode (Go.uint16 n)) as [e|a] eqn:E.
    + split; [done|]. intros (found & Hf & _).
      apply Forall2_cons_inv_l in Hf as (a & found' & Ha & _ & _). congruence.
    + rewrite IH. split.
      * intros (found & Hf & -> & ->). exists (a :: found).
        split; [by constructor|]. by rewrite fmap_cons, <- !app_assoc.
      * intros (found & Hf & -> & ->).
        apply Forall2_cons_inv_l in Hf as (a' & found' & Ha & Hf & ->).
        assert (a' = a) as -> by congruence. exists found'.
        split; [done|]. by rewrite fmap_cons, <- !app_assoc.
Qed.


Lemma finalCPUSet_error (i : internalContainerLifecycleImpl)
    (pod : Pod) (container : Container) (e : lookupError hostError) :
  (finalCPUSet GetCPUsforNUMANode i pod container).2 = Fail e →
  allocatedCPUsOf i pod container ≠ ∅
  ∧ failedNode e ∈ numaNodesOf i pod container
  ∧ GetCPUsforNUMANode (Go.uint16 (failedNode e)) = inl (cause e).
Proof.
  pose proof (gather_error (Go.sorted (numaNodesOf i pod container)) [] [] e)
    as Hg.
  setoid_rewrite elem_of_sorted in Hg.
  unfold finalCPUSet.
  destruct (notNil (cpuManager i) && _ && _ && _) eqn:G1.
  - rewrite <- andb_assoc in G1. apply andb_true_iff in G1 as [G1 _].
    apply cpu_guard in G1.
    destruct (gatherNUMANodeCPUs _ _ _ _) as [iss [affs|e'|]]; simpl in *.
    + destruct (convertToGroupAffinities _); [|done].
      destruct (len _ >? len _); [done|]. by destruct (subset _ _).
    + intros [= ->]. split; [done|]. by apply (Hg eq_refl).
    + done.
  - destruct (notNil (cpuManager i) && _) eqn:G2.
    + by destruct (convertToGroupAffinities _).
    + destruct (notNil (memoryManager i) && _) eqn:G3; [|done].
      apply andb_true_iff in G3 as [_ G3].
      apply negb_true_iff, IsEmpty_false in G3.
      destruct (gatherNUMANodeCPUs _ _ _ _) as [iss [affs|e'|]]; simpl in *;
        [done| |done].
      intros [= ->]. split; [done|]. by apply (Hg eq_refl).
Qed.


(** X11. [PreCreateContainer] returns an error only for a failed lookup of
    a NUMA node the memory manager selected, and only when the feature gate
    is on and the CPU manager selected something; the container
    configuration is then the one passed in. *)
Theorem error_is_lookup_failure (gate : bool)
    (i : internalContainerLifecycleImpl) (pod : Pod) (container : Container)
    (containerConfig : ContainerConfig) (e : lookupError hostError) :
  returned (PreCreateContainer GetCPUsforNUMANode gate i pod container
              containerConfig) = Fail e →
  gate = true
  ∧ allocatedCPUsOf i pod container ≠ ∅
  ∧ failedNode e ∈ numaNodesOf i pod container
  ∧ GetCPUsforNUMANode (Go.uint16 (failedNode e)) = inl (cause e)
  ∧ config (PreCreateContainer GetCPUsforNUMANode gate i pod container
              containerConfig) = containerConfig.
Proof.
  pose proof (finalCPUSet_error i pod container e) as Herr.
  unfold PreCreateContainer. destruct gate; [|done]. cbn [negb].
  destruct (finalCPUSet _ _ _ _) as [iss [[final|]|e'|]]; simpl in *;
    try done.
  - destruct (groupMasks final); [|done].
    by destruct (setAffinityCpus _ _).
  - intros [= ->]. destruct Herr as (? & ? & ?); done.
Qed.

(** X12. The gathering loop succeeds exactly when the lookup of every node
    succeeds; it then has issued one lookup per node, in the order of the
    nodes, and returns the affinities found in that order. *)
Theorem gather_succeeds_iff (nodes issued : list Z)
    (affinities : list GROUP_AFFINITY) :
  gatherNUMANodeCPUs GetCPUsforNUMANode nodes [] [] = (issued, Ok affinities)
  ↔ Forall2 (λ n a, GetCPUsforNUMANode (Go.uint16 n) = inr a) nodes affinities
    ∧ issued = Go.uint16 <$> nodes.
Proof.
  rewrite gather_ok_iff. simpl. naive_solver.
Qed.

(** X13. When the memory manager is nil or selects no node and the CPU
    manager selects CPUs below [maxCPUs], the final set is the CPU manager's
    selection itself and no lookup is issued. *)
Theorem cpu_manager_only (i : internalContainerLifecycleImpl)
    (pod : Pod) (container : Container) :
  numaNodesOf i pod container = ∅ →
  allocatedCPUsOf i pod container ≠ ∅ →
  (∀ c, c ∈ allocatedCPUsOf i pod container → 0 ≤ c < maxCPUs) →
  finalCPUSet GetCPUsforNUMANode i pod container
  = ([], Ok (Some (allocatedCPUsOf i pod container))).
Proof.
  intros Hnuma Hcpu Hrange.
  rewrite (finalCPUSet_cpu_only GetCPUsforNUMANode i pod container
             (singleBit <$> Go.sorted (allocatedCPUsOf i pod container)));
    [|done|done|].
  - by rewrite flatten_singleBits.
  - apply convertToGroupAffinities_nonneg. intros c Hc. apply Hrange in Hc. lia.
Qed.

(** X14. Whenever the CPU manager's flattened selection [cpuSet] is
    non-empty and the NUMA nodes expand to [numaSet], a final set is chosen
    and it lies between the two: it contains all of [cpuSet] and nothing
    outside [cpuSet ∪ numaSet]. *)
Theorem final_set_between (i : internalContainerLifecycleImpl)
    (pod : Pod) (container : Container)
    (affinities allNumaNodeCPUs : list GROUP_AFFINITY) (issued : list Z) :
  convertToGroupAffinities (allocatedCPUsOf i pod container) = Some affinities →
  gatherNUMANodeCPUs GetCPUsforNUMANode
    (Go.sorted (numaNodesOf i pod container)) [] []
    = (issued, Ok allNumaNodeCPUs) →
  computeCPUSet affinities ≠ ∅ →
  ∃ final,
    finalCPUSet GetCPUsforNUMANode i pod container = (issued, Ok (Some final))
    ∧ computeCPUSet affinities ⊆ final
    ∧ final ⊆ computeCPUSet affinities ∪ computeCPUSet allNumaNodeCPUs.
Proof.
  intros Hconv Hgather Hne.
  assert (allocatedCPUsOf i pod container ≠ ∅) as Hcpu
    by (by eapply convert_empty_inv).
  destruct (decide (numaNodesOf i pod container = ∅)) as [Hnone|Hsome].
  - rewrite Hnone, sorted_empty in Hgather. simpl in Hgather.
    injection Hgather as <- <-. exists (computeCPUSet affinities).
    split; [by apply finalCPUSet_cpu_only|]. set_solver.
  - rewrite (finalCPUSet_both GetCPUsforNUMANode i pod container affinities
               allNumaNodeCPUs issued) by done.
    eexists. split; [reflexivity|].
    destruct (len _ >? len _); [set_solver|].
    destruct (subset _ _); [set_solver|].
    rewrite mergeSets_union. set_solver.
Qed.

(** X15. When a final set of CPUs below 64 * 2^32 is chosen and the
    configuration has its Windows resources, [PreCreateContainer] returns
    the nil error and writes an affinity list with one entry per group, in
    which bit [b] of the entry of group [g] is set exactly when CPU
    [g*64 + b] is in the final set. *)
Theorem written_affinity_encodes_final_set
    (i : internalContainerLifecycleImpl) (pod : Pod) (container : Container)
    (containerConfig : ContainerConfig) (w : WindowsContainerConfig)
    (res : WindowsContainerResources) (issued : list Z) (final : gset Z) :
  finalCPUSet GetCPUsforNUMANode i pod container = (issued, Ok (Some final)) →
  (∀ c, c ∈ final → 0 ≤ c < 64 * 2 ^ 32) →
  Windows containerConfig = Some w → Resources w = Some res →
  ∃ l,
    PreCreateContainer GetCPUsforNUMANode true i pod container containerConfig
    = {| lookups := issued;
         config := {| Windows := Some {| Resources := Some
                        {| AffinityCpus := l |} |} |};
         returned := Ok () |}
    ∧ NoDup (CpuGroup <$> l)
    ∧ (∀ g b, 0 ≤ b < 64 →
         (∃ entry, entry ∈ l ∧ CpuGroup entry = g
                   ∧ Z.testbit (CpuMask entry) b = true)
         ↔ g * 64 + b ∈ final).
Proof.
  intros Hfinal Hrange Hw Hres.
  assert (∀ c, c ∈ final → 0 ≤ c) as Hnonneg
    by (intros c Hc; apply Hrange in Hc; lia).
  destruct (groupMasks_spec final Hnonneg) as (masks & Hm & Hdom & Hbits).
  assert (∀ g mask, masks !! g = Some mask →
            Go.uint32 g = g ∧ Go.uint64 mask = mask) as Hsmall.
  { intros g mask Hg. unfold Go.uint32, Go.uint64, Go.wrap. split.
    - destruct (proj1 (Hdom g)) as (c & Hc & <-); [by eexists|].
      apply Hrange in Hc. apply Z.mod_small.
      split; [apply Z.div_pos; lia | apply Z.div_lt_upper_bound; lia].
    - pose proof (groupMasks_range final masks g mask Hnonneg Hm Hg).
      apply Z.mod_small. lia. }
  exists (cpusToGroupAffinities masks). split; [|split].
  - unfold PreCreateContainer. cbn [negb]. rewrite Hfinal, Hm.
    unfold setAffinityCpus. by rewrite Hw, Hres.
  - unfold cpusToGroupAffinities. rewrite <- list_fmap_compose.
    assert ((CpuGroup ∘ (λ gm : Z * Z,
               {| CpuGroup := Go.uint32 gm.1; CpuMask := Go.uint64 gm.2 |}))
              <$> map_to_list masks = (map_to_list masks).*1) as ->.
    { apply Forall_fmap_ext, Forall_forall. intros [g mask] Hin.
      apply elem_of_map_to_list in Hin. simpl. by apply (Hsmall g mask). }
    apply NoDup_fst_map_to_list.
  - intros g b Hb. unfold cpusToGroupAffinities. split.
    + intros (entry & Hin & Hg & Hbit).
      apply list_elem_of_fmap in Hin as ([g' mask] & -> & Hin).
      apply elem_of_map_to_list in Hin. simpl in *.
      destruct (Hsmall g' mask Hin) as [Hg' Hmask].
      rewrite Hg' in Hg. subst g'. rewrite Hmask in Hbit.
      apply (Hbits g b); [lia|]. unfold maskAt. by rewrite Hin.
    + intros Hin.
      assert (Z.testbit (maskAt masks g) b = true) as Hbit
        by (apply Hbits; [lia|]; split; [lia|done]).
      unfold maskAt in Hbit. destruct (masks !! g) as [mask|] eqn:Hg;
        [|by rewrite Z.bits_0 in Hbit].
      simpl in Hbit. destruct (Hsmall g mask Hg) as [Hg' Hmask].
      exists {| CpuGroup := Go.uint32 g; CpuMask := Go.uint64 mask |}.
      split; [|split; [done|by rewrite Hmask]].
      apply list_elem_of_fmap. exists (g, mask). split; [done|].
      by apply elem_of_map_to_list.
Qed.

End ResolverRuns.

(** ** Instances of the further properties *)

Lemma groupMasks_order_independent_witness :
  group_cpus (reverse (elements ({[0; 2; 65]} : gset Z))) ∅
  = groupMasks {[0; 2; 65]}.
Proof.
  apply (groupMasks_order_independent {[0; 2; 65]}).
  apply reverse_Permutation.
Defined.

Lemma groupMasks_groups_witness :
  ∃ masks, groupMasks {[0; 65]} = Some masks
    ∧ (∀ g, is_Some (masks !! g)
            ↔ ∃ c, c ∈ ({[0; 65]} : gset Z) ∧ c / 64 = g)
    ∧ (∀ g mask, masks !! g = Some mask → mask ≠ 0).
Proof.
  apply (groupMasks_groups {[0; 65]}).
  intros c Hc. set_unfold. lia.
Defined.

Lemma groupMasks_injective_witness :
  ({[0; 65]} : gset Z) = {[65; 0]}.
Proof.
  apply (groupMasks_injective {[0; 65]} {[65; 0]}).
  - intros c Hc. set_unfold. lia.
  - intros c Hc. set_unfold. lia.
  - vm_compute. reflexivity.
Defined.

Lemma flatten_convert_wraps_witness :
  ∃ affinities, convertToGroupAffinities {[4194305]} = Some affinities
    ∧ (1 ∈ computeCPUSet affinities
       ↔ ∃ c, c ∈ ({[4194305]} : gset Z) ∧ 1 = c mod maxCPUs).
Proof.
  apply (flatten_convert_wraps {[4194305]} 1).
  intros c Hc. set_unfold. lia.
Defined.

Lemma error_is_lookup_failure_witness :
  failedNode {| failedNode := 2; cause := "no such node" |}
  ∈ numaNodesOf (bothManagers {[0; 1; 2; 3]} {[0; 1; 2; 5]})
      samplePod sampleContainer.
Proof.
  apply (error_is_lookup_failure sampleLookup true
           (bothManagers {[0; 1; 2; 3]} {[0; 1; 2; 5]})
           samplePod sampleContainer sampleConfig
           {| failedNode := 2; cause := "no such node" |}).
  vm_compute. reflexivity.
Defined.

Lemma cpu_manager_only_witness :
  finalCPUSet sampleLookup (bothManagers {[0; 65]} ∅) samplePod sampleContainer
  = ([], Ok (Some (allocatedCPUsOf (bothManagers {[0; 65]} ∅)
                     samplePod sampleContainer))).
Proof.
  apply (cpu_manager_only sampleLookup (bothManagers {[0; 65]} ∅)
           samplePod sampleContainer).
  - reflexivity.
  - vm_compute. discriminate.
  - intros c Hc. unfold maxCPUs. simpl in Hc. set_unfold. lia.
Defined.

Lemma final_set_between_witness :
  ∃ final,
    finalCPUSet sampleLookup (bothManagers {[0; 70]} {[1]})
      samplePod sampleContainer = ([1], Ok (Some final))
    ∧ computeCPUSet (singleBit <$> [0; 70]) ⊆ final
    ∧ final ⊆ computeCPUSet (singleBit <$> [0; 70]) ∪ computeCPUSet [ga 1 15].
Proof.
  apply (final_set_between sampleLookup (bothManagers {[0; 70]} {[1]})
           samplePod sampleContainer (singleBit <$> [0; 70]) [ga 1 15] [1]).
  - vm_compute. reflexivity.
  - vm_compute. reflexivity.
  - vm_compute. discriminate.
Defined.

Lemma written_affinity_encodes_final_set_witness :
  ∃ l,
    PreCreateContainer sampleLookup true (bothManagers {[0; 1; 2; 3]} {[0; 1]})
      samplePod sampleContainer sampleConfig
    = {| lookups := [0; 1];
         config := {| Windows := Some {| Resources := Some
                        {| AffinityCpus := l |} |} |};
         returned := Ok () |}
    ∧ NoDup (CpuGroup <$> l)
    ∧ (∀ g b, 0 ≤ b < 64 →
         (∃ entry, entry ∈ l ∧ CpuGroup entry = g
                   ∧ Z.testbit (CpuMask entry) b = true)
         ↔ g * 64 + b ∈ ({[0; 1; 2; 3]} : gset Z)).
Proof.
  apply (written_affinity_encodes_final_set sampleLookup
           (bothManagers {[0; 1; 2; 3]} {[0; 1]}) samplePod sampleContainer
           sampleConfig
           {| Resources := Some
                {| AffinityCpus := [ {| CpuGroup := 0; CpuMask := 3 |} ] |} |}
           {| AffinityCpus := [ {| CpuGroup := 0; CpuMask := 3 |} ] |}
           [0; 1] {[0; 1; 2; 3]}).
  - vm_compute. reflexivity.
  - intros c Hc. set_unfold. lia.
  - reflexivity.
  - reflexivity.
Defined.
